(** * Local Volume Explorer: the data-to-visual pipeline

    A shallow embedding of the JavaScript sources of the explorer
    ([utils/dataUtils.js], the component [App] that follows the entry
    point in [main.jsx], [components/GalaxyParticles.jsx],
    [components/UIOverlay.jsx]) together with the properties of the
    record normaliser, the filter engine, the colour mapper, the size
    classifier, the search-match marker and the coordinate converter.

    Conventions of the embedding:
    - a JavaScript number is an exact rational or [NaN]; rounding of IEEE
      doubles and the two infinities are not represented (every divisor in
      the program is a non-zero constant, and [Math.log10] is only called
      on positive arguments);
    - a JavaScript object (a parsed CSV row, a galaxy record) is a finite
      map from property names to values, so that object spread is map
      union and a later property of an object literal overrides an
      earlier one;
    - reading a property that is absent yields [undefined];
    - functions of the host and of libraries whose code is not part of the
      application ([Math.log10], the string-to-number conversion of the
      language, the [THREE.Color] constructor) are fields of the class
      [Externals];
    - an exception is a value [Throw] of the type [result]. *)

From Stdlib Require Import QArith Qround Qminmax Lqa.
From Stdlib Require Reals.
From stdpp Require Import gmap strings list fin_maps.

Open Scope Q_scope.

(** ** JavaScript values *)

Inductive number :=
  | Fin (q : Q)
  | NaN.

Inductive value :=
  | VUndefined
  | VNull
  | VBool (b : bool)
  | VNum (n : number)
  | VStr (s : string).

(** The value of the numeric literal or array index [n]. *)
Definition num_of_nat (n : nat) : number := Fin (inject_Z (Z.of_nat n)).

Definition Qltb (x y : Q) : bool := negb (Qle_bool y x).

(** Equality of numbers up to the representation of a rational. *)
Definition num_equiv (a b : number) : Prop :=
  match a, b with
  | Fin x, Fin y => x == y
  | NaN, NaN => True
  | _, _ => False
  end.

(** Arithmetic: an operand that is [NaN] makes the result [NaN]. *)
Definition num_add (a b : number) : number :=
  match a, b with Fin x, Fin y => Fin (x + y) | _, _ => NaN end.

Definition num_sub (a b : number) : number :=
  match a, b with Fin x, Fin y => Fin (x - y) | _, _ => NaN end.

Definition num_mul (a b : number) : number :=
  match a, b with Fin x, Fin y => Fin (x * y) | _, _ => NaN end.

(** Division; a zero divisor (an infinity or [NaN] in JavaScript) is
    mapped to [NaN]: the program only divides by non-zero constants. *)
Definition num_div (a b : number) : number :=
  match a, b with
  | Fin x, Fin y => if Qeq_bool y 0 then NaN else Fin (x / y)
  | _, _ => NaN
  end.

(** Comparisons of numbers: every comparison with [NaN] is false. *)
Definition num_lt (a b : number) : bool :=
  match a, b with Fin x, Fin y => Qltb x y | _, _ => false end.

Definition num_le (a b : number) : bool :=
  match a, b with Fin x, Fin y => Qle_bool x y | _, _ => false end.

Definition num_gt (a b : number) : bool := num_lt b a.
Definition num_ge (a b : number) : bool := num_le b a.

(** [Math.min] and [Math.max] of two numbers. *)
Definition Math_min (a b : number) : number :=
  match a, b with
  | Fin x, Fin y => if Qle_bool x y then Fin x else Fin y
  | _, _ => NaN
  end.

Definition Math_max (a b : number) : number :=
  match a, b with
  | Fin x, Fin y => if Qle_bool x y then Fin y else Fin x
  | _, _ => NaN
  end.

(** ** Colours of the rendering library *)

Module THREE.

Record Color := mkColor { r : number; g : number; b : number }.

Definition Color_equiv (c1 c2 : Color) : Prop :=
  num_equiv (r c1) (r c2) ∧ num_equiv (g c1) (g c2) ∧ num_equiv (b c1) (b c2).

Definition Color_finite (c : Color) : Prop :=
  (∃ x, r c = Fin x) ∧ (∃ x, g c = Fin x) ∧ (∃ x, b c = Fin x).

(** [new THREE.Color().lerpColors(c1, c2, alpha)] of the rendering
    library: each channel of the result is [c1 + (c2 - c1) * alpha]. *)
Definition lerpColors (c1 c2 : Color) (alpha : number) : Color :=
  {| r := num_add (r c1) (num_mul (num_sub (r c2) (r c1)) alpha);
     g := num_add (g c1) (num_mul (num_sub (g c2) (g c1)) alpha);
     b := num_add (b c1) (num_mul (num_sub (b c2) (b c1)) alpha) |}.

End THREE.

(** ** Functions provided by the host and by libraries *)

Class Externals := {
  (** the conversion of a string to a number ([Number(s)]) *)
  StringToNumber : string → number;
  (** [Math.log10] *)
  Math_log10 : number → number;
  (** [new THREE.Color(hex)] *)
  THREE_Color : string → THREE.Color
}.

(** ** Objects *)

Abbreviation object := (gmap string value).

(** Property read [o.k]. *)
Definition get (o : object) (k : string) : value :=
  default VUndefined (o !! k).

Section Coercions.
Context {ext : Externals}.

Definition ToNumber (v : value) : number :=
  match v with
  | VUndefined => NaN
  | VNull => Fin 0
  | VBool b => if b then Fin 1 else Fin 0
  | VNum n => n
  | VStr s => StringToNumber s
  end.

Definition ToBoolean (v : value) : bool :=
  match v with
  | VUndefined | VNull => false
  | VBool b => b
  | VNum (Fin q) => negb (Qeq_bool q 0)
  | VNum NaN => false
  | VStr s => negb (String.eqb s "")
  end.

(** [a || b] *)
Definition js_or (a b : value) : value :=
  if ToBoolean a then a else b.

(** [a < b]: two strings are compared as strings, anything else as
    numbers. *)
Definition js_lt (a b : value) : bool :=
  match a, b with
  | VStr s1, VStr s2 => String.ltb s1 s2
  | _, _ => num_lt (ToNumber a) (ToNumber b)
  end.

(** [a > b] *)
Definition js_gt (a b : value) : bool := js_lt b a.

(** [v != null] *)
Definition neq_null (v : value) : bool :=
  match v with
  | VUndefined | VNull => false
  | _ => true
  end.
End Coercions.

(** ** utils/dataUtils.js *)

Module dataUtils.
Section DataUtils.
Context {ext : Externals}.

(** The pre-scan of [loadData]: the loop that sets [maxMass]. *)
Definition prescan_step (maxMass : value) (row : object) : value :=
  if js_gt (get row "mass_stellar") maxMass
  then get row "mass_stellar" else maxMass.

Definition prescan (rows : list object) : value :=
  fold_left prescan_step rows (VNum (Fin 0)).

(** The callback of [.filter]. *)
Definition hasCoords (row : object) : bool :=
  neq_null (get row "sg_xx") && neq_null (get row "sg_yy")
  && neq_null (get row "sg_zz").

(** The mass processing of one row. *)
Definition massOf (isLinear : bool) (row : object) : value :=
  let mass := js_or (get row "mass_stellar") (VNum (Fin 0)) in
  if isLinear && js_gt mass (VNum (Fin 0))
  then VNum (Math_log10 (ToNumber mass))
  else mass.

(** The callback of [.map]: the object literal
    [{ id: index, ...row, x, y, z, mass_log: mass, dist_mpc: ... }]. *)
Definition normalizeRow (isLinear : bool) (index : nat) (row : object)
  : object :=
  let x := num_div (ToNumber (get row "sg_xx")) (Fin 1000) in
  let y := num_div (ToNumber (get row "sg_yy")) (Fin 1000) in
  let z := num_div (ToNumber (get row "sg_zz")) (Fin 1000) in
  let mass := massOf isLinear row in
  <["dist_mpc" :=
      VNum (num_div (ToNumber (js_or (get row "distance") (VNum (Fin 0))))
                    (Fin 1000))]>
    (<["mass_log" := mass]>
      (<["z" := VNum z]>
        (<["y" := VNum y]>
          (<["x" := VNum x]>
            (row ∪ {["id" := VNum (num_of_nat index)]}))))).

(** [const isLinear = maxMass > 20] *)
Definition isLinear (rows : list object) : bool :=
  js_gt (prescan rows) (VNum (Fin 20)).

(** The [complete] callback of [loadData], applied to [results.data]. *)
Definition loadData (rows : list object) : list object :=
  match rows with
  | [] => []
  | _ => imap (normalizeRow (isLinear rows)) (List.filter hasCoords rows)
  end.
End DataUtils.
End dataUtils.

(** ** Strings and exceptions *)

Inductive error := TypeError.

Inductive result (A : Type) :=
  | Ok (a : A)
  | Throw (e : error).
Arguments Ok {A} a.
Arguments Throw {A} e.

#[global] Instance result_ret : MRet result := @Ok.

#[global] Instance result_bind : MBind result := λ A B k m,
  match m with
  | Ok a => k a
  | Throw e => Throw e
  end.

(** [l.map(f)] for a callback that may throw: the first exception
    aborts the whole call. *)
Fixpoint array_map {A B} (f : A → result B) (l : list A) : result (list B) :=
  match l with
  | [] => Ok []
  | a :: l' => b ← f a; bs ← array_map f l'; Ok (b :: bs)
  end.

(** [String.prototype.toLowerCase] on the letters A to Z; every other
    character is left unchanged. *)
Definition lower_ascii (a : Ascii.ascii) : Ascii.ascii :=
  let n := Ascii.nat_of_ascii a in
  if (65 <=? n)%nat && (n <=? 90)%nat then Ascii.ascii_of_nat (n + 32) else a.

Fixpoint toLowerCase (s : string) : string :=
  match s with
  | EmptyString => EmptyString
  | String a s' => String (lower_ascii a) (toLowerCase s')
  end.

(** The method call [v.toLowerCase()] on an arbitrary value: only a
    string has the method; on [undefined] and [null] the property read
    throws, on other values the call of the missing method throws. *)
Definition call_toLowerCase (v : value) : result string :=
  match v with
  | VStr s => Ok (toLowerCase s)
  | _ => Throw TypeError
  end.

(** [s.includes(q)] *)
Fixpoint includes (s q : string) : bool :=
  String.prefix q s ||
  match s with
  | EmptyString => false
  | String _ s' => includes s' q
  end.

(** ** The component [App] *)

Module App.
Section App.
Context {ext : Externals}.

(** The state variables read by [processedData]. *)
Record FilterState := {
  maxDist : Q;
  minMass : Q;
  showLocalGroup : bool;
  searchQuery : string
}.

(** The callback of [data.filter]. *)
Definition keep (st : FilterState) (d : object) : bool :=
  if js_gt (get d "dist_mpc") (VNum (Fin (maxDist st))) then false
  else if js_lt (get d "mass_log") (VNum (Fin (minMass st))) then false
  else if showLocalGroup st && js_gt (get d "dist_mpc") (VNum (Fin 3.0))
  then false
  else true.

(** The callback of [.map]: [{ ...d, isMatch: ... }]. *)
Definition annotate (st : FilterState) (lowerQuery : string) (d : object)
  : result object :=
  isMatch ←
    (if ToBoolean (VStr (searchQuery st))
     then name ← call_toLowerCase (get d "name");
          Ok (includes name lowerQuery)
     else Ok true);
  Ok (<["isMatch" := VBool isMatch]> d).

Definition processedData (st : FilterState) (data : list object)
  : result (list object) :=
  let lowerQuery := toLowerCase (searchQuery st) in
  array_map (annotate st lowerQuery) (List.filter (keep st) data).

(** The property [searchActive={!!searchQuery}] passed to the scene. *)
Definition searchActive (st : FilterState) : bool :=
  ToBoolean (VStr (searchQuery st)).
End App.
End App.

(** ** components/GalaxyParticles.jsx *)

(** [l.forEach((d, i) => ...)] for a callback that updates local
    variables [St] of the enclosing function. *)
Fixpoint forEach_from {A St} (f : St → A → nat → St) (i : nat) (l : list A)
  (st : St) : St :=
  match l with
  | [] => st
  | d :: l' => forEach_from f (S i) l' (f st d i)
  end.

Definition forEach {A St} (f : St → A → nat → St) (l : list A) (st : St)
  : St :=
  forEach_from f 0 l st.

Module GalaxyParticles.
Section GalaxyParticles.
Context {ext : Externals}.

Record ColorStop := { t : number; c : THREE.Color }.

Definition colorStops : list ColorStop :=
  [ {| t := Fin 0.0; c := THREE_Color "#000004" |};
    {| t := Fin 0.2; c := THREE_Color "#3B0F70" |};
    {| t := Fin 0.4; c := THREE_Color "#8C2981" |};
    {| t := Fin 0.6; c := THREE_Color "#DE4968" |};
    {| t := Fin 0.8; c := THREE_Color "#FE9F6D" |};
    {| t := Fin 1.0; c := THREE_Color "#FCFDBF" |} ].

(** The [for] loop of [getMagmaColor] over the pairs of consecutive
    stops [colorStops[i]], [colorStops[i+1]]; [None] when the loop ends
    without a [return]. *)
Fixpoint findSegment (tc : number) (stops : list ColorStop)
  : option THREE.Color :=
  match stops with
  | s0 :: ((s1 :: _) as rest) =>
      if num_ge tc (t s0) && num_le tc (t s1)
      then
        let tSeg := num_div (num_sub tc (t s0)) (num_sub (t s1) (t s0)) in
        Some (THREE.lerpColors (c s0) (c s1) tSeg)
      else findSegment tc rest
  | _ => None
  end.

Definition getMagmaColor (tc : number) : THREE.Color :=
  let tc := Math_max (Fin 0) (Math_min (Fin 1) tc) in
  match findSegment tc colorStops with
  | Some col => col
  | None =>
      match colorStops !! (length colorStops - 1)%nat with
      | Some stop => c stop
      | None => THREE.mkColor NaN NaN NaN
      end
  end.

(** The colour of one record: [getMagmaColor((d.mass_log - 6.0) / 5.5)]. *)
Definition colorOf (d : object) : THREE.Color :=
  getMagmaColor
    (num_div (num_sub (ToNumber (get d "mass_log")) (Fin 6.0)) (Fin 5.5)).

(** The size of one record. *)
Definition baseSize (d : object) : number :=
  if js_lt (get d "mass_log") (VNum (Fin 8.0)) then Fin 1.5
  else if js_lt (get d "mass_log") (VNum (Fin 10.0)) then Fin 2.5
  else Fin 4.0.

(** The local variables of the [useMemo] callback. *)
Record Buffers := {
  pos : list value;
  cols : list number;
  s : list number;
  particlesList : list object;
  labeled : list object;
  match_ : option object
}.

Definition init : Buffers :=
  {| pos := []; cols := []; s := []; particlesList := [];
     labeled := []; match_ := None |}.

(** The body of [data.forEach((d, i) => ...)]. *)
Definition step (massThreshold : Q) (searchActive : bool)
  (st : Buffers) (d : object) (i : nat) : Buffers :=
  let col := colorOf d in
  {| pos := pos st ++ [get d "x"; get d "y"; get d "z"];
     particlesList :=
       particlesList st ++ [<["originalIndex" := VNum (num_of_nat i)]> d];
     match_ :=
       if searchActive && ToBoolean (get d "isMatch")
       then Some d else match_ st;
     labeled :=
       if js_gt (get d "mass_log") (VNum (Fin massThreshold))
       then labeled st ++ [d] else labeled st;
     cols := cols st ++ [THREE.r col; THREE.g col; THREE.b col];
     s := s st ++ [baseSize d] |}.

Definition useMemo (data : list object) (massThreshold : Q)
  (searchActive : bool) : Buffers :=
  forEach (step massThreshold searchActive) data init.

Definition matchedGalaxy (data : list object) (massThreshold : Q)
  (searchActive : bool) : option object :=
  match_ (useMemo data massThreshold searchActive).

(** The position handed to [BlinkingMarker]:
    [matchedGalaxy && [matchedGalaxy.x, matchedGalaxy.y, matchedGalaxy.z]]. *)
Definition markerPosition (data : list object) (massThreshold : Q)
  (searchActive : bool) : option (value * value * value) :=
  match matchedGalaxy data massThreshold searchActive with
  | Some m => Some (get m "x", get m "y", get m "z")
  | None => None
  end.
End GalaxyParticles.
End GalaxyParticles.

(** ** components/UIOverlay.jsx *)

(** [handleLocate] calls [Math.cos] and [Math.sin]; its numbers are
    modelled as real numbers. *)
Module UIOverlay.
Import Reals.
Local Open Scope R_scope.

Definition d2r : R := PI / 180.

(** The object [{ x, y, z }] given to [setUserMarker]. *)
Definition handleLocate (ra dec dist : R) : R * R * R :=
  let x := dist * cos (dec * d2r) * cos (ra * d2r) in
  let y := dist * cos (dec * d2r) * sin (ra * d2r) in
  let z := dist * sin (dec * d2r) in
  (x, y, z).
End UIOverlay.

(** ** A concrete choice of the external functions

    Used by the examples: strings that are not numerals convert to [NaN],
    the logarithm is the integer part of the decimal logarithm (exact on
    the powers of ten), and a colour is read from its hexadecimal
    notation with channels in the range 0 to 1. *)

Definition hex_digit (a : Ascii.ascii) : Z :=
  let n := Z.of_nat (Ascii.nat_of_ascii a) in
  if (48 <=? n)%Z && (n <=? 57)%Z then (n - 48)%Z
  else if (65 <=? n)%Z && (n <=? 70)%Z then (n - 55)%Z
  else if (97 <=? n)%Z && (n <=? 102)%Z then (n - 87)%Z
  else 0%Z.

Definition hex_channel (a1 a2 : Ascii.ascii) : number :=
  Fin ((16 * hex_digit a1 + hex_digit a2) # 255).

Definition hexColor (h : string) : THREE.Color :=
  match h with
  | String _ (String r1 (String r2 (String g1 (String g2
      (String b1 (String b2 EmptyString)))))) =>
      THREE.mkColor (hex_channel r1 r2) (hex_channel g1 g2) (hex_channel b1 b2)
  | _ => THREE.mkColor (Fin 0) (Fin 0) (Fin 0)
  end.

Fixpoint ilog10 (fuel : nat) (z : Z) : Z :=
  match fuel with
  | O => 0%Z
  | S fuel' => if (z <? 10)%Z then 0%Z else (1 + ilog10 fuel' (z / 10))%Z
  end.

Definition sample_log10 (n : number) : number :=
  match n with
  | Fin q =>
      if Qltb 0 q
      then Fin (inject_Z (ilog10 (Z.to_nat (Z.log2 (Qfloor q)) + 1) (Qfloor q)))
      else NaN
  | NaN => NaN
  end.

Definition sample_externals : Externals :=
  {| StringToNumber := fun _ => NaN;
     Math_log10 := sample_log10;
     THREE_Color := hexColor |}.

(** ** Vocabulary of the specification *)

(** The property names written by the object literal of [loadData] after
    the spread of the row. *)
Definition derived_fields : list string :=
  ["x"; "y"; "z"; "mass_log"; "dist_mpc"].

(** [o] carries every field of [row] that is not overwritten by a
    derived field. *)
Definition carries (row o : object) : Prop :=
  ∀ k v, k ∉ derived_fields → row !! k = Some v → o !! k = Some v.

(** A field that is present: neither [null] nor [undefined]. *)
Definition present (v : value) : Prop := v ≠ VNull ∧ v ≠ VUndefined.

(** The column [mass_stellar] of a row holds a number or is missing. *)
Definition mass_typed (row : object) : Prop :=
  (∃ m, get row "mass_stellar" = VNum (Fin m))
  ∨ get row "mass_stellar" = VNull
  ∨ get row "mass_stellar" = VUndefined.

(** The stellar mass of a row, a missing one counted as 0. *)
Definition massOrZero (row : object) : Q :=
  match get row "mass_stellar" with
  | VNum (Fin m) => m
  | _ => 0
  end.

(** The maximum of [mass_stellar] over all rows. *)
Definition maxMassSpec (rows : list object) : Q :=
  match rows with
  | [] => 0
  | row :: rows' => fold_left Qmax (map massOrZero rows') (massOrZero row)
  end.

(** The fields [dist_mpc] and [mass_log] of a record hold numbers. *)
Definition record_typed (d : object) : Prop :=
  ∃ dist mass,
    get d "dist_mpc" = VNum (Fin dist) ∧ get d "mass_log" = VNum (Fin mass).

(** The condition of the filter engine on a record, in the words of the
    specification. *)
Definition visible (st : App.FilterState) (d : object) : Prop :=
  ∃ dist mass,
    get d "dist_mpc" = VNum (Fin dist) ∧ get d "mass_log" = VNum (Fin mass) ∧
    dist <= App.maxDist st ∧ App.minMass st <= mass ∧
    (App.showLocalGroup st = true → dist <= 3).

(** [q] occurs in [s] as a contiguous substring. *)
Definition is_substring (q s : string) : Prop :=
  ∃ pre post, s = pre +:+ q +:+ post.

(** [clamp(u, 0, 1)] *)
Definition clamp01 (u : Q) : Q := Qmax 0 (Qmin 1 u).

(** The test of the marker search on one record. *)
Definition isMatch `{Externals} (d : object) : bool :=
  ToBoolean (get d "isMatch").

(** Degrees to radians, in the words of the specification. *)
Module CoordinateConverter.
Import Reals.
Local Open Scope R_scope.

Definition radians (deg : R) : R := deg * PI / 180.
End CoordinateConverter.

(** ** Sample data

    A small catalogue on the logarithmic mass scale and a filter state,
    used by the examples below. *)

Definition catalog_row (name : value) (sg_xx sg_yy sg_zz distance : Q)
  (mass_stellar : value) : object :=
  {[ "name" := name;
     "sg_xx" := VNum (Fin sg_xx);
     "sg_yy" := VNum (Fin sg_yy);
     "sg_zz" := VNum (Fin sg_zz);
     "distance" := VNum (Fin distance);
     "mass_stellar" := mass_stellar ]}.

Definition row_andromeda : object :=
  catalog_row (VStr "Andromeda Galaxy") 1000 2000 3000 4000 (VNum (Fin 10.5)).

Definition row_and_xii : object :=
  catalog_row (VStr "Andromeda XII") 500 600 700 900 (VNum (Fin 6.5)).

Definition row_sculptor : object :=
  catalog_row (VStr "Sculptor") 10 20 30 86 (VNum (Fin 6.4)).

Definition row_nameless : object :=
  catalog_row VNull 100 200 300 400 (VNum (Fin 7)).

(** A row without [sg_yy]. *)
Definition row_no_yy : object :=
  delete "sg_yy" (catalog_row (VStr "Ghost") 1 2 3 4 (VNum (Fin 7))).

Definition sample_rows : list object :=
  [row_andromeda; row_no_yy; row_and_xii; row_sculptor].

(** Two rows of a catalogue that has a column [id], both with the
    value 7 in it. *)
Definition rows_with_id : list object :=
  [<["id" := VNum (Fin 7)]> row_andromeda;
   <["id" := VNum (Fin 7)]> row_sculptor].

(** A catalogue on the linear mass scale, with one mass missing. *)
Definition rows_linear : list object :=
  [catalog_row (VStr "Andromeda Galaxy") 1000 2000 3000 4000
     (VNum (Fin 10000000000));
   catalog_row (VStr "Sculptor") 10 20 30 86 VNull;
   catalog_row (VStr "Fornax") 40 50 60 147 (VNum (Fin 0))].

Definition sample_state : App.FilterState :=
  {| App.maxDist := 11; App.minMass := 6; App.showLocalGroup := false;
     App.searchQuery := "andromeda" |}.

(** The records of [sample_rows] as [loadData] emits them. *)
Definition rec_andromeda : object :=
  dataUtils.normalizeRow (ext := sample_externals) false 0 row_andromeda.

Definition rec_and_xii : object :=
  dataUtils.normalizeRow (ext := sample_externals) false 1 row_and_xii.

Definition rec_sculptor : object :=
  dataUtils.normalizeRow (ext := sample_externals) false 2 row_sculptor.

Definition rec_nameless : object :=
  dataUtils.normalizeRow (ext := sample_externals) false 0 row_nameless.

Definition sample_records : list object :=
  [rec_andromeda; rec_and_xii; rec_sculptor].

(** ** Further parts of the sources *)

(** *** The component [App]: the data load and the choice of the screen *)

Module AppLoad.
Section AppLoad.
Context {ext : Externals}.

(** The state variables [data], [loading] and [error]. *)
Record State := {
  data : list object;
  loading : bool;
  error : value
}.

(** [useState([])], [useState(true)], [useState(null)] *)
Definition initial : State :=
  {| data := []; loading := true; error := VNull |}.

(** [.then(d => { setData(d); setLoading(false); })] *)
Definition onLoaded (d : list object) (st : State) : State :=
  {| data := d; loading := false; error := error st |}.

(** [.catch(err => { setError(err.message || "Failed to load data");
    setLoading(false); })] *)
Definition onFailed (err : object) (st : State) : State :=
  {| data := data st; loading := false;
     error := js_or (get err "message") (VStr "Failed to load data") |}.

(** What the component returns: the loading text, the error text with
    its message, or the scene with the overlay. *)
Inductive Screen :=
  | LoadingScreen
  | ErrorScreen (message : value)
  | Explorer (records : list object).

Definition render (st : State) : Screen :=
  if loading st then LoadingScreen
  else if ToBoolean (error st) then ErrorScreen (error st)
  else Explorer (data st).
End AppLoad.
End AppLoad.

(** *** From [App] through [Scene] to the marker of [GalaxyParticles]

    [App] renders [<Scene data={processedData}
    searchActive={!!searchQuery} ... />], and [Scene] hands both
    properties on to [GalaxyParticles]. *)

Module AppScene.
Section AppScene.
Context {ext : Externals}.

Definition matchMarker (st : App.FilterState) (massThreshold : Q)
  (data : list object) : result (option (value * value * value)) :=
  processed ← App.processedData st data;
  Ok (GalaxyParticles.markerPosition processed massThreshold
        (App.searchActive st)).
End AppScene.
End AppScene.

(** *** The pointer handlers of [GalaxyParticles]

    The hovered record given to [onHover] is [None] for [null] and for
    [undefined]. *)

Module Picking.

(** [if (e.index !== undefined) onHover(particles[e.index])] *)
Definition onPointerMove (particles : list object) (index : option nat)
  (hovered : option object) : option object :=
  match index with
  | Some i => particles !! i
  | None => hovered
  end.

(** [onHover(null)] *)
Definition onPointerOut : option object := None.

End Picking.

(** *** The info panel of [UIOverlay] *)

Module InfoPanel.
Section InfoPanel.
Context {ext : Externals}.

(** [Number.prototype.toFixed] *)
Variable toFixed : number → nat → string.

(** The method call [v.toFixed(digits)] on an arbitrary value: only a
    number has the method. *)
Definition call_toFixed (v : value) (digits : nat) : result string :=
  match v with
  | VNum n => Ok (toFixed n digits)
  | _ => Throw TypeError
  end.

(** [hoveredGalaxy.mass_log > massThreshold ? "MASSIVE" : "DWARF"] *)
Definition classification (hoveredGalaxy : object) (massThreshold : Q)
  : string :=
  if js_gt (get hoveredGalaxy "mass_log") (VNum (Fin massThreshold))
  then "MASSIVE" else "DWARF".

(** The texts of the panel, in the order of the markup. *)
Record Panel := {
  title : value;
  distance : string;
  stellarMass : string;
  absMag : value;
  kind : string
}.

(** [hoveredGalaxy && (...)] *)
Definition infoPanel (hoveredGalaxy : option object) (massThreshold : Q)
  : result (option Panel) :=
  match hoveredGalaxy with
  | None => Ok None
  | Some h =>
      dist ← call_toFixed (get h "dist_mpc") 2;
      mass ← call_toFixed (get h "mass_log") 1;
      Ok (Some {| title := get h "name";
                  distance := dist;
                  stellarMass := mass;
                  absMag := get h "M_V";
                  kind := classification h massThreshold |})
  end.
End InfoPanel.
End InfoPanel.

(** *** The blinking marker and the shaders

    As for [handleLocate], the numbers are real numbers. *)

Module BlinkingMarker.
Import Reals.
Local Open Scope R_scope.


End BlinkingMarker.

Module Shaders.
Import Reals.
Local Open Scope R_scope.

(** The vertex shader: [gl_PointSize = size * (300.0 / -mvPosition.z)]. *)
Definition gl_PointSize (size z : R) : R := size * (300.0 / - z).

(** The built-in functions [clamp] and [smoothstep] of the shading
    language. *)
Definition clamp (x minVal maxVal : R) : R := Rmin (Rmax x minVal) maxVal.

Definition smoothstep (edge0 edge1 x : R) : R :=
  let t := clamp ((x - edge0) / (edge1 - edge0)) 0 1 in
  t * t * (3 - 2 * t).

(** The fragment shader at the distance [r] from the centre of the
    point: [None] when the fragment is discarded, otherwise the alpha of
    [gl_FragColor]. *)
Definition fragmentAlpha (r : R) : option R :=
  if Rlt_dec 0.5 r then None
  else
    let glow := exp ((- r) * r * 8.0) in
    let core := 1 - smoothstep 0 0.2 r in
    Some (glow * 0.8 + core * 0.4).

End Shaders.

(** ** Further vocabulary *)

(** The column [distance] of a row holds a number or is missing. *)
Definition distance_typed (row : object) : Prop :=
  (∃ q, get row "distance" = VNum (Fin q))
  ∨ get row "distance" = VNull
  ∨ get row "distance" = VUndefined.

(** [Math.log10] yields a number on every positive number. *)
Definition log10_finite `{Externals} : Prop :=
  ∀ q, 0 < q → ∃ l, Math_log10 (Fin q) = Fin l.

(** The name of a record is a string whose lowercase form contains
    [lowerQuery]. *)
Definition nameMatches (lowerQuery : string) (d : object) : bool :=
  match get d "name" with
  | VStr n => includes (toLowerCase n) lowerQuery
  | _ => false
  end.

(** The three coordinates of a record, as they are pushed on the
    position buffer. *)
Definition position (d : object) : value * value * value :=
  (get d "x", get d "y", get d "z").

(** A channel of a colour lies between two bounds. *)
Definition channel_within (lo hi : Q) (n : number) : Prop :=
  ∃ x, n = Fin x ∧ lo <= x <= hi.

Definition Color_within (lo hi : Q) (col : THREE.Color) : Prop :=
  channel_within lo hi (THREE.r col) ∧ channel_within lo hi (THREE.g col)
  ∧ channel_within lo hi (THREE.b col).

(** The order of point sizes. *)
Definition size_le (a b : number) : Prop :=
  match a, b with
  | Fin x, Fin y => x <= y
  | _, _ => False
  end.

(** What the loop of [GalaxyParticles] pushes for one record: its three
    coordinates, the three channels of its colour, and the record with
    its index in [originalIndex]. *)
Definition coordinates (d : object) : list value :=
  [get d "x"; get d "y"; get d "z"].

Definition channels `{Externals} (d : object) : list number :=
  [THREE.r (GalaxyParticles.colorOf d); THREE.g (GalaxyParticles.colorOf d);
   THREE.b (GalaxyParticles.colorOf d)].

Definition tagged (offset i : nat) (d : object) : object :=
  <["originalIndex" := VNum (num_of_nat (offset + i))]> d.

(** The test of the labels: [d.mass_log > massThreshold]. *)
Definition isMassive `{Externals} (massThreshold : Q) (d : object) : bool :=
  js_gt (get d "mass_log") (VNum (Fin massThreshold)).

(** A record with the annotation of the filter pass for the lowercased
    query [lowerQuery]. *)
Definition annotated (lowerQuery : string) (d : object) : object :=
  <["isMatch" := VBool (nameMatches lowerQuery d)]> d.

(** ** Further sample data *)

(** The sample state with the query in capital letters. *)
Definition sample_state_upper : App.FilterState :=
  {| App.maxDist := 11; App.minMass := 6; App.showLocalGroup := false;
     App.searchQuery := "ANDROMEDA" |}.

(** A more permissive state than [sample_state]. *)
Definition wide_state : App.FilterState :=
  {| App.maxDist := 15; App.minMass := 4; App.showLocalGroup := false;
     App.searchQuery := "andromeda" |}.

(** Two states with [maxDist = 3] that differ in the local group box. *)
Definition near_state : App.FilterState :=
  {| App.maxDist := 3; App.minMass := 6; App.showLocalGroup := true;
     App.searchQuery := "" |}.

Definition near_state_all : App.FilterState :=
  {| App.maxDist := 3; App.minMass := 6; App.showLocalGroup := false;
     App.searchQuery := "" |}.

(** * Properties *)

(** ** Numbers and comparisons *)

Lemma Qltb_lt x y : Qltb x y = true ↔ x < y.
Proof.
  unfold Qltb. rewrite negb_true_iff.
  destruct (Qle_bool y x) eqn:E.
  - apply Qle_bool_iff in E. split; [discriminate | lra].
  - split; [intros _ | reflexivity].
    apply Qnot_le_lt. intros Hle. apply Qle_bool_iff in Hle. congruence.
Qed.

Lemma Qltb_ge x y : Qltb x y = false ↔ y <= x.
Proof. unfold Qltb. rewrite negb_false_iff. apply Qle_bool_iff. Qed.

Lemma num_of_nat_inj i j : num_of_nat i = num_of_nat j → i = j.
Proof.
  unfold num_of_nat, inject_Z. intros Heq.
  injection Heq as Heq. by apply Nat2Z.inj.
Qed.

(** ** Record normalisation: [loadData] *)

(** Membership of a property name in a list of names. *)
Ltac field_in := unfold derived_fields; repeat constructor.
Ltac field_not_in :=
  unfold derived_fields;
  let Hin := fresh "Hin" in
  intros Hin;
  repeat (apply elem_of_cons in Hin as [Hin|Hin]; [discriminate Hin|]);
  by apply elem_of_nil in Hin.

Section DataUtilsFacts.
Context {ext : Externals}.
Import dataUtils.

Lemma loadData_imap rows :
  loadData rows = imap (normalizeRow (isLinear rows)) (List.filter hasCoords rows).
Proof. by destruct rows. Qed.

Lemma loadData_lookup rows i o :
  loadData rows !! i = Some o ↔
  ∃ row, List.filter hasCoords rows !! i = Some row
         ∧ o = normalizeRow (isLinear rows) i row.
Proof.
  rewrite loadData_imap, list_lookup_imap.
  destruct (List.filter hasCoords rows !! i) as [row|]; simpl.
  - split.
    + intros [= <-]. by exists row.
    + intros (row' & [= <-] & ->). done.
  - split; [done | by intros (? & ? & _)].
Qed.

Lemma loadData_length rows :
  length (loadData rows) = length (List.filter hasCoords rows).
Proof. by rewrite loadData_imap, length_imap. Qed.

(** A property other than the five derived ones is read from the row,
    and from [id: index] when the row does not have it. *)
Lemma normalizeRow_lookup_other isLin i row k :
  k ∉ derived_fields →
  normalizeRow isLin i row !! k
  = (row ∪ {["id" := VNum (num_of_nat i)]}) !! k.
Proof.
  intros Hk. unfold normalizeRow.
  rewrite !lookup_insert_ne; [done | | | | |];
    intros <-; apply Hk; field_in.
Qed.

Lemma normalizeRow_carries isLin i row :
  carries row (normalizeRow isLin i row).
Proof.
  intros k v Hk Hv. rewrite normalizeRow_lookup_other by done.
  by apply lookup_union_Some_l.
Qed.

Lemma normalizeRow_id isLin i row :
  get (normalizeRow isLin i row) "id"
  = match row !! "id" with
    | Some v => v
    | None => VNum (num_of_nat i)
    end.
Proof.
  unfold get. rewrite normalizeRow_lookup_other by field_not_in.
  destruct (row !! "id") as [v|] eqn:E.
  - by erewrite lookup_union_Some_l.
  - rewrite lookup_union_r by done. by rewrite lookup_singleton_eq.
Qed.

Lemma normalizeRow_mass_log isLin i row :
  get (normalizeRow isLin i row) "mass_log" = massOf isLin row.
Proof.
  unfold get, normalizeRow.
  rewrite lookup_insert_ne by done. by rewrite lookup_insert_eq.
Qed.

Lemma hasCoords_present row :
  hasCoords row = true ↔
  present (get row "sg_xx") ∧ present (get row "sg_yy")
  ∧ present (get row "sg_zz").
Proof.
  unfold hasCoords, present. rewrite !andb_true_iff.
  assert (Hn : ∀ v, neq_null v = true ↔ v ≠ VNull ∧ v ≠ VUndefined).
  { intros []; simpl; split; try done; intros [? ?]; congruence. }
  rewrite !Hn. tauto.
Qed.

Lemma carries_get row o k :
  carries row o → k ∉ derived_fields → present (get row k) →
  get o k = get row k.
Proof.
  intros Hc Hk [Hnull Hundef]. unfold get in *.
  destruct (row !! k) as [v|] eqn:E; simpl in *; [|done].
  by rewrite (Hc k v Hk E).
Qed.

Lemma carries_hasCoords row o :
  carries row o → hasCoords row = true → hasCoords o = true.
Proof.
  intros Hc. rewrite !hasCoords_present. intros (Hx & Hy & Hz).
  rewrite !(carries_get row o) by (done || field_not_in).
  done.
Qed.
End DataUtilsFacts.

Section DataUtilsClaims.
Context {ext : Externals}.
Import dataUtils.

Lemma filter_sublist {A} (f : A → bool) (l : list A) :
  List.filter f l `sublist_of` l.
Proof.
  induction l as [|a l IH]; simpl; [constructor|].
  destruct (f a); by constructor.
Qed.

(** C8. For every sequence of input rows, the normalised output
    consists of exactly the rows whose three coordinates [sg_xx],
    [sg_yy], [sg_zz] are all non-null, in the order of the input: the
    [i]-th output record carries the fields of the [i]-th such row, a
    row is among them iff it is an input row with the three coordinates
    present, no output record lacks a coordinate, and the length of the
    output is the length of the input minus the number of rows that
    miss a coordinate. *)
Theorem loadData_keeps_rows_with_coordinates (rows : list object) :
  Forall2 carries (List.filter hasCoords rows) (loadData rows)
  ∧ List.filter hasCoords rows `sublist_of` rows
  ∧ (∀ row, row ∈ List.filter hasCoords rows ↔
       row ∈ rows ∧ present (get row "sg_xx") ∧ present (get row "sg_yy")
       ∧ present (get row "sg_zz"))
  ∧ Forall (λ o, hasCoords o = true) (loadData rows)
  ∧ length (loadData rows)
    = (length rows
       - length (List.filter (λ row, negb (hasCoords row)) rows))%nat.
Proof.
  assert (Hrel : Forall2 carries (List.filter hasCoords rows) (loadData rows)).
  { rewrite loadData_imap. generalize (isLinear rows). intros isLin.
    generalize (List.filter hasCoords rows). intros l.
    apply Forall2_same_length_lookup_2; [by rewrite length_imap|].
    intros i row o Hrow Ho. rewrite list_lookup_imap, Hrow in Ho.
    injection Ho as <-. apply normalizeRow_carries. }
  split_and!.
  - done.
  - apply filter_sublist.
  - intros row. rewrite !list_elem_of_In, List.filter_In, hasCoords_present.
    done.
  - apply list.Forall_forall. intros o Ho.
    apply list_elem_of_lookup in Ho as [i Ho].
    destruct (Forall2_lookup_r _ _ _ _ _ Hrel Ho) as (row & Hrow & Hc).
    apply (carries_hasCoords row); [done|].
    apply list_elem_of_lookup_2, list_elem_of_In, List.filter_In in Hrow.
    tauto.
  - rewrite loadData_length.
    pose proof (List.filter_length hasCoords rows) as Hlen. simpl in Hlen.
    lia.
Qed.

(** C2 (as amended). Each emitted record's [id] is its sequential index
    in the normalised output when the input row has no [id] column; an
    input row that has an [id] column keeps the value of that column
    instead. When no input row has an [id] column, the ids are unique
    within the load. *)
Theorem loadData_id (rows : list object) :
  (∀ i o, loadData rows !! i = Some o →
     ∃ row, List.filter hasCoords rows !! i = Some row
       ∧ (row !! "id" = None → get o "id" = VNum (num_of_nat i))
       ∧ (∀ v, row !! "id" = Some v → get o "id" = v))
  ∧ (Forall (λ row : object, row !! "id" = None) rows →
     ∀ i j oi oj,
       loadData rows !! i = Some oi → loadData rows !! j = Some oj →
       get oi "id" = get oj "id" → i = j).
Proof.
  assert (Hid : ∀ i o, loadData rows !! i = Some o →
     ∃ row, List.filter hasCoords rows !! i = Some row
       ∧ (row !! "id" = None → get o "id" = VNum (num_of_nat i))
       ∧ (∀ v, row !! "id" = Some v → get o "id" = v)).
  { intros i o Ho. apply loadData_lookup in Ho as (row & Hrow & ->).
    exists row. split; [done|]. rewrite normalizeRow_id.
    split; [by intros -> | by intros v ->]. }
  split; [done|].
  intros Hnone i j oi oj Hi Hj Heq.
  destruct (Hid i oi Hi) as (ri & Hri & Hidi & _).
  destruct (Hid j oj Hj) as (rj & Hrj & Hidj & _).
  assert (Hin : ∀ k row, List.filter hasCoords rows !! k = Some row →
                         row !! "id" = None).
  { intros k row Hk. rewrite list.Forall_forall in Hnone. apply Hnone.
    apply list_elem_of_lookup_2, list_elem_of_In, List.filter_In in Hk.
    apply list_elem_of_In. tauto. }
  rewrite Hidi, Hidj in Heq by eauto.
  apply num_of_nat_inj. congruence.
Qed.
End DataUtilsClaims.

Section MassScale.
Context {ext : Externals}.
Import dataUtils.

Lemma fold_Qmax_gt (c : Q) (l : list Q) (a : Q) :
  c < fold_left Qmax l a ↔ c < a ∨ ∃ q, q ∈ l ∧ c < q.
Proof.
  revert a. induction l as [|q l IH]; intros a; simpl.
  - split; [by left | intros [?|(q & Hq & _)]; [done|]].
    by apply elem_of_nil in Hq.
  - rewrite IH. split.
    + intros [Hmax|(q' & Hq' & Hlt)].
      * destruct (Q.max_spec a q) as [[_ Heq]|[_ Heq]]; rewrite Heq in Hmax.
        -- right. exists q. split; [constructor | done].
        -- by left.
      * right. exists q'. split; [by constructor | done].
    + intros [Ha|(q' & Hq' & Hlt)].
      * left. pose proof (Q.le_max_l a q). lra.
      * apply elem_of_cons in Hq' as [->|Hq'].
        -- left. pose proof (Q.le_max_r a q). lra.
        -- right. by exists q'.
Qed.

Lemma maxMassSpec_gt (c : Q) (rows : list object) :
  0 <= c →
  c < maxMassSpec rows ↔ ∃ row, row ∈ rows ∧ c < massOrZero row.
Proof.
  intros Hc. destruct rows as [|row rows]; simpl.
  - split; [lra | intros (row & Hrow & _)]. by apply elem_of_nil in Hrow.
  - rewrite fold_Qmax_gt. split.
    + intros [Hlt|(q & Hq & Hlt)].
      * exists row. split; [constructor | done].
      * apply list_elem_of_fmap in Hq as (row' & -> & Hrow').
        exists row'. split; [by constructor | done].
    + intros (row' & Hrow' & Hlt).
      apply elem_of_cons in Hrow' as [->|Hrow']; [by left | right].
      exists (massOrZero row'). split; [|done].
      apply list_elem_of_fmap. by exists row'.
Qed.

(** One iteration of the pre-scan on a row whose mass is a number or is
    missing, from a non-negative running maximum. *)
Lemma prescan_step_typed (a : Q) (row : object) :
  0 <= a → mass_typed row →
  prescan_step (VNum (Fin a)) row
  = VNum (Fin (if Qltb a (massOrZero row) then massOrZero row else a)).
Proof.
  intros Ha Hty. unfold prescan_step, massOrZero, js_gt, js_lt.
  destruct Hty as [[m ->]|[-> | ->]]; simpl.
  - by destruct (Qltb a m).
  - replace (Qltb a 0) with false; [done|].
    symmetry. by apply Qltb_ge.
  - replace (Qltb a 0) with false; [done|].
    symmetry. by apply Qltb_ge.
Qed.

Lemma prescan_from_typed (c a : Q) (rows : list object) :
  0 <= a → Forall mass_typed rows →
  ∃ M, fold_left prescan_step rows (VNum (Fin a)) = VNum (Fin M)
       ∧ 0 <= M
       ∧ (c < M ↔ c < a ∨ ∃ row, row ∈ rows ∧ c < massOrZero row).
Proof.
  revert a. induction rows as [|row rows IH]; intros a Ha Hty; simpl.
  - exists a. split_and!; [done | done |].
    split; [by left | intros [?|(row & Hrow & _)]; [done|]].
    by apply elem_of_nil in Hrow.
  - apply Forall_cons in Hty as [Hrow Hty].
    rewrite prescan_step_typed by done.
    destruct (Qltb a (massOrZero row)) eqn:E.
    + apply Qltb_lt in E.
      destruct (IH (massOrZero row)) as (M & -> & HM & Hiff);
        [lra | done |].
      exists M. split_and!; [done | done |]. rewrite Hiff. split.
      * intros [Hlt|(row' & Hrow' & Hlt)].
        -- right. exists row. split; [constructor | done].
        -- right. exists row'. split; [by constructor | done].
      * intros [Hlt|(row' & Hrow' & Hlt)]; [left; lra|].
        apply elem_of_cons in Hrow' as [->|Hrow']; [by left|].
        right. by exists row'.
    + apply Qltb_ge in E.
      destruct (IH a) as (M & -> & HM & Hiff); [done | done |].
      exists M. split_and!; [done | done |]. rewrite Hiff. split.
      * intros [Hlt|(row' & Hrow' & Hlt)]; [by left|].
        right. exists row'. split; [by constructor | done].
      * intros [Hlt|(row' & Hrow' & Hlt)]; [by left|].
        apply elem_of_cons in Hrow' as [->|Hrow']; [left; lra|].
        right. by exists row'.
Qed.

(** The global decision: the scale is linear iff the maximum of
    [mass_stellar] exceeds 20. *)
Lemma isLinear_spec (rows : list object) :
  Forall mass_typed rows →
  isLinear rows = true ↔ 20 < maxMassSpec rows.
Proof.
  intros Hty. unfold isLinear, prescan, js_gt, js_lt.
  destruct (prescan_from_typed 20 0 rows) as (M & -> & _ & Hiff);
    [lra | done |].
  simpl. rewrite Qltb_lt, Hiff, maxMassSpec_gt by lra.
  split; [intros [?|?]; [lra | done] | by right].
Qed.

Lemma massOf_number (isLin : bool) (row : object) (m : Q) :
  get row "mass_stellar" = VNum (Fin m) →
  (isLin = true → 0 < m → massOf isLin row = VNum (Math_log10 (Fin m)))
  ∧ (¬ (isLin = true ∧ 0 < m) →
     massOf isLin row = VNum (Fin m)
     ∨ (m == 0 ∧ massOf isLin row = VNum (Fin 0))).
Proof.
  intros Hm. unfold massOf, js_or, js_gt, js_lt. rewrite Hm. simpl.
  destruct (Qeq_bool m 0) eqn:E; simpl.
  - apply Qeq_bool_iff in E. rewrite andb_false_r. split.
    + intros _ Hpos. lra.
    + intros _. by right.
  - destruct (Qltb 0 m) eqn:Hlt.
    + apply Qltb_lt in Hlt. destruct isLin; simpl.
      * split; [done | intros Hn; destruct Hn; done].
      * split; [done | by left].
    + apply Qltb_ge in Hlt. rewrite andb_false_r. split.
      * intros _ Hpos. lra.
      * by left.
Qed.

Lemma massOf_missing (isLin : bool) (row : object) :
  get row "mass_stellar" = VNull ∨ get row "mass_stellar" = VUndefined →
  massOf isLin row = VNum (Fin 0).
Proof.
  intros Hm. unfold massOf, js_or, js_gt, js_lt.
  destruct Hm as [-> | ->]; simpl; by rewrite andb_false_r.
Qed.

(** C3. The normaliser takes one decision per load: with [maxMass] the
    maximum of [mass_stellar] over all rows (a missing mass counted as
    0), the scale is linear iff [maxMass > 20]; every emitted record's
    [mass_log] is [log10(mass_stellar)] if the scale is linear and
    [mass_stellar > 0], and is [mass_stellar] unchanged (0 when it is
    missing) otherwise; a row whose [mass_stellar] is 0 is never
    log-transformed. *)
Theorem loadData_mass_log (rows : list object) :
  Forall mass_typed rows →
  (isLinear rows = true ↔ 20 < maxMassSpec rows)
  ∧ ∀ i o, loadData rows !! i = Some o →
      ∃ row, List.filter hasCoords rows !! i = Some row ∧
        match get row "mass_stellar" with
        | VNum (Fin m) =>
            (20 < maxMassSpec rows → 0 < m →
             get o "mass_log" = VNum (Math_log10 (Fin m)))
            ∧ (¬ (20 < maxMassSpec rows ∧ 0 < m) →
               get o "mass_log" = VNum (Fin m)
               ∨ (m == 0 ∧ get o "mass_log" = VNum (Fin 0)))
            ∧ (m == 0 → ∃ z, get o "mass_log" = VNum (Fin z) ∧ z == 0)
        | _ => get o "mass_log" = VNum (Fin 0)
        end.
Proof.
  intros Hty. pose proof (isLinear_spec rows Hty) as Hlin.
  split; [done|].
  intros i o Ho. apply loadData_lookup in Ho as (row & Hrow & ->).
  exists row. split; [done|]. rewrite normalizeRow_mass_log.
  assert (Hrowty : mass_typed row).
  { rewrite list.Forall_forall in Hty. apply Hty.
    apply list_elem_of_lookup_2, list_elem_of_In, List.filter_In in Hrow.
    apply list_elem_of_In. tauto. }
  destruct Hrowty as [[m Hm]|Hmiss].
  - rewrite Hm.
    destruct (massOf_number (isLinear rows) row m Hm) as [Hlog Hsame].
    assert (Hno : ¬ (20 < maxMassSpec rows ∧ 0 < m) →
              massOf (isLinear rows) row = VNum (Fin m)
              ∨ (m == 0 ∧ massOf (isLinear rows) row = VNum (Fin 0))).
    { intros Hn. apply Hsame. rewrite Hlin. done. }
    split_and!.
    + intros Hmax Hpos. apply Hlog; [by apply Hlin | done].
    + done.
    + intros Hz. destruct Hno as [Heq|[_ Heq]]; [lra | | ].
      * exists m. done.
      * exists 0. done.
  - rewrite (massOf_missing _ _ Hmiss). by destruct Hmiss as [-> | ->].
Qed.
End MassScale.

(** ** The filter pass: [processedData] *)

Lemma array_map_Ok {A B} (g : A → B) (l : list A) :
  array_map (λ a, Ok (g a)) l = Ok (map g l).
Proof. induction l as [|a l IH]; simpl; [done|]. by rewrite IH. Qed.

Lemma array_map_ext {A B} (f g : A → result B) (l : list A) :
  Forall (λ a, f a = g a) l → array_map f l = array_map g l.
Proof.
  induction 1 as [|a l Ha _ IH]; simpl; [done|]. by rewrite Ha, IH.
Qed.

Lemma array_map_inv {A B} (f : A → result B) (l : list A) (out : list B) :
  array_map f l = Ok out → Forall2 (λ a b, f a = Ok b) l out.
Proof.
  revert out. induction l as [|a l IH]; simpl; intros out Hout.
  - injection Hout as <-. constructor.
  - destruct (f a) as [b|e] eqn:Ha; simpl in Hout; [|done].
    destruct (array_map f l) as [bs|e] eqn:Hl; simpl in Hout; [|done].
    injection Hout as <-. constructor; [done | by apply IH].
Qed.

Lemma array_map_Throw {A B} (f : A → result B) (l : list A) (a : A) :
  a ∈ l → f a = Throw TypeError → array_map f l = Throw TypeError.
Proof.
  intros Hin Ha. induction l as [|a' l IH]; [by apply elem_of_nil in Hin|].
  simpl. apply elem_of_cons in Hin as [<-|Hin].
  - by rewrite Ha.
  - destruct (f a') as [b|[]]; simpl; [|done]. by rewrite IH.
Qed.

Lemma append_nil_l (s : string) : "" +:+ s = s.
Proof. reflexivity. Qed.

Lemma append_cons (a : Ascii.ascii) (s1 s2 : string) :
  String a s1 +:+ s2 = String a (s1 +:+ s2).
Proof. reflexivity. Qed.

Lemma prefix_spec (q s : string) :
  String.prefix q s = true ↔ ∃ post, s = q +:+ post.
Proof.
  revert s. induction q as [|a q IH]; intros s.
  - split; [intros _; by exists s | intros _; by destruct s].
  - destruct s as [|a' s]; simpl.
    + split; [done | intros (post & Hpost)]. by rewrite append_cons in Hpost.
    + destruct (Ascii.ascii_dec a a') as [->|Hne].
      * rewrite IH. split; intros (post & Hpost); exists post.
        -- by rewrite append_cons, Hpost.
        -- rewrite append_cons in Hpost. congruence.
      * split; [done | intros (post & Hpost)].
        rewrite append_cons in Hpost. congruence.
Qed.

Lemma includes_spec (s q : string) :
  includes s q = true ↔ is_substring q s.
Proof.
  unfold is_substring. induction s as [|a s IH].
  - cbn [includes]. rewrite orb_false_r, prefix_spec. split.
    + intros (post & ->). by exists "", post.
    + intros (pre & post & Heq). destruct pre as [|a pre].
      * by exists post.
      * by rewrite append_cons in Heq.
  - cbn [includes]. rewrite orb_true_iff, prefix_spec, IH. split.
    + intros [(post & ->)|(pre & post & ->)].
      * by exists "", post.
      * by exists (String a pre), post.
    + intros (pre & post & Heq). destruct pre as [|a' pre].
      * left. by exists post.
      * right. rewrite append_cons in Heq. injection Heq as -> ->.
        by exists pre, post.
Qed.

Section AppFacts.
Context {ext : Externals}.
Import App.

Lemma searchActive_spec (st : FilterState) :
  searchActive st = true ↔ searchQuery st ≠ "".
Proof.
  unfold searchActive. simpl. rewrite negb_true_iff.
  destruct (String.eqb_spec (searchQuery st) ""); split; congruence.
Qed.

Lemma annotate_empty_query (st : FilterState) (lq : string) (d : object) :
  searchQuery st = "" →
  annotate st lq d = Ok (<["isMatch" := VBool true]> d).
Proof. intros Hq. unfold annotate. by rewrite Hq. Qed.

Lemma annotate_string_name (st : FilterState) (lq n : string) (d : object) :
  searchQuery st ≠ "" → get d "name" = VStr n →
  annotate st lq d
  = Ok (<["isMatch" := VBool (includes (toLowerCase n) lq)]> d).
Proof.
  intros Hq Hn. apply searchActive_spec in Hq. unfold searchActive in Hq.
  unfold annotate. by rewrite Hq, Hn.
Qed.

Lemma annotate_no_name (st : FilterState) (lq : string) (d : object) :
  searchQuery st ≠ "" → (∀ n, get d "name" ≠ VStr n) →
  annotate st lq d = Throw TypeError.
Proof.
  intros Hq Hn. apply searchActive_spec in Hq. unfold searchActive in Hq.
  unfold annotate. rewrite Hq.
  destruct (get d "name") as [| | | |n]; try done. by destruct (Hn n).
Qed.

Lemma annotate_Ok (st : FilterState) (lq : string) (d o : object) :
  annotate st lq d = Ok o → ∃ b, o = <["isMatch" := VBool b]> d.
Proof.
  unfold annotate. destruct (ToBoolean (VStr (searchQuery st))).
  - destruct (call_toLowerCase (get d "name")) as [n|e]; simpl; [|done].
    intros [= <-]. by eexists.
  - simpl. intros [= <-]. by eexists.
Qed.

Lemma keep_visible (st : FilterState) (d : object) :
  visible st d → keep st d = true.
Proof.
  intros (dist & mass & Hd & Hm & Hmax & Hmin & Hlg).
  unfold keep, js_gt, js_lt. rewrite Hd, Hm. simpl.
  replace (Qltb (maxDist st) dist) with false
    by (symmetry; by apply Qltb_ge).
  replace (Qltb mass (minMass st)) with false
    by (symmetry; by apply Qltb_ge).
  destruct (showLocalGroup st); simpl; [|done].
  assert (Hlt : Qltb 3.0 dist = false).
  { apply Qltb_ge. specialize (Hlg eq_refl). lra. }
  by rewrite Hlt.
Qed.

Lemma keep_typed_visible (st : FilterState) (d : object) :
  record_typed d → keep st d = true → visible st d.
Proof.
  intros (dist & mass & Hd & Hm). unfold keep, js_gt, js_lt.
  rewrite Hd, Hm. simpl. intros Hkeep.
  destruct (Qltb (maxDist st) dist) eqn:E1; [done|].
  destruct (Qltb mass (minMass st)) eqn:E2; [done|].
  apply Qltb_ge in E1, E2.
  exists dist, mass. split_and!; try done.
  intros Hlg. rewrite Hlg in Hkeep. simpl in Hkeep.
  destruct (Qltb 3.0 dist) eqn:E3; [done|]. apply Qltb_ge in E3. lra.
Qed.

Lemma filter_Forall {A} (P : A → Prop) (f : A → bool) (l : list A) :
  Forall P l → Forall P (List.filter f l).
Proof.
  rewrite !list.Forall_forall. intros HP a Ha. apply HP.
  apply list_elem_of_In, List.filter_In in Ha. apply list_elem_of_In. tauto.
Qed.
End AppFacts.

Section AppClaims.
Context {ext : Externals}.
Import App.

Lemma insert_isMatch_name (d : object) (b : bool) :
  get (<["isMatch" := VBool b]> d) "name" = get d "name".
Proof. unfold get. by rewrite lookup_insert_ne. Qed.

Lemma insert_isMatch_get (d : object) (b : bool) :
  get (<["isMatch" := VBool b]> d) "isMatch" = VBool b.
Proof. unfold get. by rewrite lookup_insert_eq. Qed.

Lemma processedData_total (st : FilterState) (data : list object) :
  searchQuery st = ""
  ∨ Forall (λ d, ∃ n, get d "name" = VStr n) (List.filter (keep st) data) →
  ∃ out, processedData st data = Ok out.
Proof.
  unfold processedData. intros [Hq|Hnames].
  - eexists. erewrite array_map_ext; [apply array_map_Ok|].
    apply list.Forall_forall. intros d _. by apply annotate_empty_query.
  - destruct (String.eqb_spec (searchQuery st) "") as [Hq|Hq].
    + eexists. erewrite array_map_ext; [apply array_map_Ok|].
      apply list.Forall_forall. intros d _. by apply annotate_empty_query.
    + induction Hnames as [|d l [n Hn] _ [out IH]]; simpl.
      * by eexists.
      * rewrite (annotate_string_name st _ n) by done. simpl.
        rewrite IH. simpl. by eexists.
Qed.

(** C4. For every sequence of records and every filter state, the
    output of the filter pass contains exactly the records with
    [dist_mpc <= maxDist] and [mass_log >= minMass] and, when the local
    group filter is on, [dist_mpc <= 3.0], in the order of the input
    (each one with its [isMatch] annotation added); a record with
    [dist_mpc = 5] is excluded for [maxDist = 3] whatever its mass, and
    a record with [dist_mpc = 2], [mass_log = 5.9] is excluded for
    [minMass = 6]. *)
Theorem processedData_filter (st : FilterState) (data : list object) :
  Forall record_typed data →
  (∀ d, d ∈ List.filter (keep st) data ↔ d ∈ data ∧ visible st d)
  ∧ List.filter (keep st) data `sublist_of` data
  ∧ (∀ out, processedData st data = Ok out →
       Forall2 (λ d o, ∃ b, o = <["isMatch" := VBool b]> d)
               (List.filter (keep st) data) out)
  ∧ (searchQuery st = ""
     ∨ Forall (λ d, ∃ n, get d "name" = VStr n) data →
     ∃ out, processedData st data = Ok out)
  ∧ (maxDist st == 3 → ∀ d, get d "dist_mpc" = VNum (Fin 5) →
     keep st d = false)
  ∧ (minMass st == 6 → ∀ d, get d "dist_mpc" = VNum (Fin 2) →
     get d "mass_log" = VNum (Fin 5.9) → keep st d = false).
Proof.
  intros Hty. split_and!.
  - intros d. rewrite !list_elem_of_In, List.filter_In, <- list_elem_of_In.
    split.
    + intros [Hin Hkeep]. split; [done|].
      apply keep_typed_visible; [|done].
      rewrite list.Forall_forall in Hty. by apply Hty.
    + intros [Hin Hvis]. split; [done | by apply keep_visible].
  - apply filter_sublist.
  - intros out Hout. apply array_map_inv in Hout.
    eapply Forall2_impl; [exact Hout|].
    intros d o Hd. by apply annotate_Ok in Hd.
  - intros [Hq|Hnames]; apply processedData_total; [by left | right].
    by apply filter_Forall.
  - intros Hmax d Hd. unfold keep, js_gt, js_lt. rewrite Hd. simpl.
    assert (Hlt : Qltb (maxDist st) 5 = true) by (apply Qltb_lt; lra).
    by rewrite Hlt.
  - intros Hmin d Hd Hm. unfold keep, js_gt, js_lt. rewrite Hd, Hm. simpl.
    destruct (Qltb (maxDist st) 2); [done|].
    assert (Hlt : Qltb 5.9 (minMass st) = true) by (apply Qltb_lt; lra).
    by rewrite Hlt.
Qed.

(** C5. Every record that survives the filter pass is annotated with
    [isMatch = true] if the search query is the empty string, and
    otherwise with [isMatch = true] iff the lowercased query is a
    substring of the record's lowercased name: with the empty query
    every record has [isMatch = true]; with the query "andromeda" a
    record named "Andromeda Galaxy" has [isMatch = true] and one named
    "Sculptor" has [isMatch = false]. *)
Theorem processedData_isMatch (st : FilterState) (data : list object) :
  (searchQuery st = "" →
   processedData st data
   = Ok (map (λ d, <["isMatch" := VBool true]> d)
             (List.filter (keep st) data)))
  ∧ (searchQuery st ≠ "" →
     Forall (λ d, ∃ n, get d "name" = VStr n) (List.filter (keep st) data) →
     ∃ out, processedData st data = Ok out)
  ∧ (∀ out, processedData st data = Ok out →
     length out = length (List.filter (keep st) data)
     ∧ Forall (λ o, ∃ b, get o "isMatch" = VBool b
         ∧ (searchQuery st = "" → b = true)
         ∧ (searchQuery st ≠ "" → ∃ n, get o "name" = VStr n
            ∧ (b = true ↔
               is_substring (toLowerCase (searchQuery st)) (toLowerCase n))))
       out)
  ∧ (searchQuery st = "andromeda" → ∀ d lq,
     lq = toLowerCase (searchQuery st) →
     (get d "name" = VStr "Andromeda Galaxy" →
      annotate st lq d = Ok (<["isMatch" := VBool true]> d))
     ∧ (get d "name" = VStr "Sculptor" →
        annotate st lq d = Ok (<["isMatch" := VBool false]> d))).
Proof.
  split_and!.
  - intros Hq. unfold processedData.
    erewrite array_map_ext; [apply array_map_Ok|].
    apply list.Forall_forall. intros d _. by apply annotate_empty_query.
  - intros _ Hnames. apply processedData_total. by right.
  - intros out Hout. apply array_map_inv in Hout. split.
    { symmetry. by eapply Forall2_length. }
    apply list.Forall_forall. intros o Ho.
    apply list_elem_of_lookup in Ho as [i Ho].
    destruct (Forall2_lookup_r _ _ _ _ _ Hout Ho) as (d & _ & Hd).
    destruct (String.eqb_spec (searchQuery st) "") as [Hq|Hq].
    + rewrite annotate_empty_query in Hd by done. injection Hd as <-.
      exists true. rewrite insert_isMatch_get. by split_and!.
    + destruct (get d "name") as [| | | |n] eqn:Hn;
        try (rewrite annotate_no_name in Hd by (done || congruence); done).
      rewrite (annotate_string_name st _ n) in Hd by done.
      injection Hd as <-. eexists. rewrite insert_isMatch_get.
      split_and!; [done | done |]. intros _. exists n.
      rewrite insert_isMatch_name. split; [done|]. apply includes_spec.
  - intros Hq d lq ->. split; intros Hn.
    + rewrite (annotate_string_name st _ _ d) by (done || by rewrite Hq).
      by rewrite Hq.
    + rewrite (annotate_string_name st _ _ d) by (done || by rewrite Hq).
      by rewrite Hq.
Qed.

Import dataUtils.

Lemma normalizeRow_name isLin i (row : object) :
  get (normalizeRow isLin i row) "name" = get row "name".
Proof.
  unfold get. rewrite normalizeRow_lookup_other by field_not_in.
  destruct (row !! "name") as [v|] eqn:E.
  - by erewrite lookup_union_Some_l.
  - rewrite lookup_union_r by done. by rewrite lookup_singleton_ne.
Qed.

(** C10. The [isMatch] annotation is total only for records whose
    name is a string. With a non-empty search query, [toLowerCase] is
    called on the name without a guard: if a record that survives the
    filter has a [null] or missing name, the pass throws instead of
    giving [isMatch = false]. Normalisation lets such records through,
    since it only looks at the three coordinates. With the empty query,
    or when every surviving record has a string name, the pass
    returns. *)
Theorem processedData_throws_without_name :
  (∀ (st : FilterState) (data : list object) (d : object),
     searchQuery st ≠ "" → d ∈ data → keep st d = true →
     get d "name" = VNull ∨ get d "name" = VUndefined →
     processedData st data = Throw TypeError)
  ∧ (∀ (rows : list object) (row : object),
       row ∈ rows → hasCoords row = true →
       get row "name" = VNull ∨ get row "name" = VUndefined →
       ∃ o, o ∈ loadData rows
            ∧ (get o "name" = VNull ∨ get o "name" = VUndefined))
  ∧ (∀ (st : FilterState) (data : list object),
       searchQuery st = ""
       ∨ Forall (λ d, ∃ n, get d "name" = VStr n)
                (List.filter (keep st) data) →
       ∃ out, processedData st data = Ok out).
Proof.
  split_and!.
  - intros st data d Hq Hin Hkeep Hname. unfold processedData.
    apply (array_map_Throw _ _ d).
    + apply list_elem_of_In, List.filter_In.
      split; [by apply list_elem_of_In | done].
    + apply annotate_no_name; [done|].
      intros n. destruct Hname as [-> | ->]; done.
  - intros rows row Hin Hcoords Hname.
    assert (Hf : row ∈ List.filter hasCoords rows).
    { apply list_elem_of_In, List.filter_In.
      split; [by apply list_elem_of_In | done]. }
    apply list_elem_of_lookup in Hf as [i Hi].
    exists (normalizeRow (isLinear rows) i row). split.
    + apply list_elem_of_lookup. exists i. apply loadData_lookup. eauto.
    + by rewrite normalizeRow_name.
  - apply processedData_total.
Qed.
End AppClaims.

(** ** The point cloud: [GalaxyParticles] *)

Section GalaxyParticlesFacts.
Context {ext : Externals}.
Import GalaxyParticles.

(** The loop keeps in [match] the last record that passes the test. *)
Lemma forEach_match (thr : Q) (data : list object) (i : nat)
  (st : Buffers) :
  match_ (forEach_from (step thr true) i data st)
  = match last (List.filter isMatch data) with
    | Some d => Some d
    | None => match_ st
    end.
Proof.
  revert i st. induction data as [|d data IH]; intros i st; [done|].
  cbn [forEach_from List.filter]. rewrite IH.
  unfold isMatch at 2. cbn [step match_ andb].
  destruct (ToBoolean (get d "isMatch")); [|done].
  rewrite last_cons. by destruct (last (List.filter isMatch data)).
Qed.

Lemma forEach_no_search (thr : Q) (data : list object) (i : nat)
  (st : Buffers) :
  match_ (forEach_from (step thr false) i data st) = match_ st.
Proof.
  revert i st. induction data as [|d data IH]; intros i st; [done|].
  cbn [forEach_from]. by rewrite IH.
Qed.

(** C1 (as amended). When a search is active, the record whose
    position is handed to the blinking marker is the last record of the
    filtered sequence, in iteration order, whose [isMatch] is true;
    there is no marker when no record matches or when no search is
    active. *)
Theorem matchedGalaxy_is_last_match (data : list object) (thr : Q) :
  matchedGalaxy data thr true = last (List.filter isMatch data)
  ∧ markerPosition data thr true
    = (λ m, (get m "x", get m "y", get m "z"))
      <$> last (List.filter isMatch data)
  ∧ matchedGalaxy data thr false = None
  ∧ markerPosition data thr false = None.
Proof.
  assert (Hlast : matchedGalaxy data thr true
                  = last (List.filter isMatch data)).
  { unfold matchedGalaxy, useMemo, forEach. rewrite forEach_match.
    by destruct (last (List.filter isMatch data)). }
  assert (Hnone : matchedGalaxy data thr false = None).
  { unfold matchedGalaxy, useMemo, forEach. by rewrite forEach_no_search. }
  unfold markerPosition. rewrite Hlast, Hnone.
  by split_and!.
Qed.

(** C7. The size classifier maps every [mass_log] to exactly one of
    three sizes: below 8.0 to 1.5, from 8.0 up to but excluding 10.0 to
    2.5, and from 10.0 on to 4.0; the boundary 8.0 itself maps to 2.5
    and the boundary 10.0 to 4.0. *)
Theorem baseSize_buckets (d : object) (m : Q) :
  get d "mass_log" = VNum (Fin m) →
  (m < 8 → baseSize d = Fin 1.5)
  ∧ (8 <= m → m < 10 → baseSize d = Fin 2.5)
  ∧ (10 <= m → baseSize d = Fin 4.0)
  ∧ (m == 8 → baseSize d = Fin 2.5)
  ∧ (m == 10 → baseSize d = Fin 4.0)
  ∧ (baseSize d = Fin 1.5 ∨ baseSize d = Fin 2.5 ∨ baseSize d = Fin 4.0).
Proof.
  intros Hm. unfold baseSize, js_lt. rewrite Hm. simpl.
  destruct (Qltb m 8.0) eqn:E8; [apply Qltb_lt in E8 | apply Qltb_ge in E8];
    (destruct (Qltb m 10.0) eqn:E10;
      [apply Qltb_lt in E10 | apply Qltb_ge in E10]);
    split_and!; intros; try done; try lra; auto.
Qed.
End GalaxyParticlesFacts.

Section ColorMapper.
Context {ext : Externals}.
Import GalaxyParticles.

Lemma clamp_number (u : Q) :
  ∃ tc, Math_max (Fin 0) (Math_min (Fin 1) (Fin u)) = Fin tc
        ∧ tc == clamp01 u ∧ 0 <= tc <= 1.
Proof.
  unfold clamp01, Math_min, Math_max.
  pose proof (Q.max_spec 0 (Qmin 1 u)) as Hmax.
  pose proof (Q.min_spec 1 u) as Hmin.
  destruct (Qle_bool 1 u) eqn:E1.
  - apply Qle_bool_iff in E1.
    assert (E0 : Qle_bool 0 1 = true) by done. rewrite E0.
    exists 1. split_and!; [done | lra | lra | lra].
  - assert (Hu : u < 1).
    { apply Qnot_le_lt. intros Hle. apply Qle_bool_iff in Hle. congruence. }
    destruct (Qle_bool 0 u) eqn:E0.
    + apply Qle_bool_iff in E0. exists u. split_and!; [done | lra | lra | lra].
    + assert (Hu0 : u < 0).
      { apply Qnot_le_lt. intros Hle. apply Qle_bool_iff in Hle.
        congruence. }
      exists 0. split_and!; [done | lra | lra | lra].
Qed.

Lemma findSegment_cons (tc : number) (s0 s1 : ColorStop)
  (rest : list ColorStop) :
  findSegment tc (s0 :: s1 :: rest)
  = if num_ge tc (t s0) && num_le tc (t s1)
    then Some (THREE.lerpColors (c s0) (c s1)
                 (num_div (num_sub tc (t s0)) (num_sub (t s1) (t s0))))
    else findSegment tc (s1 :: rest).
Proof. reflexivity. Qed.

(** A successful search of the loop returns the interpolation between
    two consecutive stops that bracket the argument. *)
Lemma findSegment_Some (tc : Q) (stops : list ColorStop)
  (col : THREE.Color) :
  findSegment (Fin tc) stops = Some col →
  ∃ i s0 s1 t0 t1,
    stops !! i = Some s0 ∧ stops !! S i = Some s1
    ∧ t s0 = Fin t0 ∧ t s1 = Fin t1 ∧ t0 <= tc <= t1
    ∧ col = THREE.lerpColors (c s0) (c s1)
              (num_div (Fin (tc - t0)) (Fin (t1 - t0))).
Proof.
  induction stops as [|s0 rest IH]; [done|].
  destruct rest as [|s1 rest]; [done|].
  rewrite findSegment_cons.
  destruct (num_ge (Fin tc) (t s0) && num_le (Fin tc) (t s1)) eqn:E.
  - intros [= <-]. apply andb_true_iff in E as [E0 E1].
    unfold num_ge, num_le in E0, E1.
    destruct (t s0) as [t0|] eqn:Ht0; [|done].
    destruct (t s1) as [t1|] eqn:Ht1; [|done].
    apply Qle_bool_iff in E0, E1.
    exists 0%nat, s0, s1, t0, t1. split_and!; done.
  - intros Hrest. destruct (IH Hrest) as (i & a & a' & t0 & t1 & Hi & HSi & ?).
    exists (S i), a, a', t0, t1. split; [exact Hi|]. split; [exact HSi|]. done.
Qed.

(** On the palette the loop finds a segment for every fraction between
    0 and 1. *)
Lemma findSegment_palette (tc : Q) :
  0 <= tc <= 1 → is_Some (findSegment (Fin tc) colorStops).
Proof.
  intros [H0 H1]. unfold colorStops.
  cbn [findSegment num_ge num_le t c].
  assert (E0 : Qle_bool 0.0 tc = true) by (apply Qle_bool_iff; lra).
  rewrite E0. cbn [andb].
  destruct (Qle_bool tc 0.2) eqn:E2; [by eexists|].
  assert (L2 : Qle_bool 0.2 tc = true).
  { apply Qle_bool_iff. apply Qlt_le_weak, Qnot_le_lt.
    intros Hle. apply Qle_bool_iff in Hle. congruence. }
  rewrite L2. cbn [andb].
  destruct (Qle_bool tc 0.4) eqn:E4; [by eexists|].
  assert (L4 : Qle_bool 0.4 tc = true).
  { apply Qle_bool_iff. apply Qlt_le_weak, Qnot_le_lt.
    intros Hle. apply Qle_bool_iff in Hle. congruence. }
  rewrite L4. cbn [andb].
  destruct (Qle_bool tc 0.6) eqn:E6; [by eexists|].
  assert (L6 : Qle_bool 0.6 tc = true).
  { apply Qle_bool_iff. apply Qlt_le_weak, Qnot_le_lt.
    intros Hle. apply Qle_bool_iff in Hle. congruence. }
  rewrite L6. cbn [andb].
  destruct (Qle_bool tc 0.8) eqn:E8; [by eexists|].
  assert (L8 : Qle_bool 0.8 tc = true).
  { apply Qle_bool_iff. apply Qlt_le_weak, Qnot_le_lt.
    intros Hle. apply Qle_bool_iff in Hle. congruence. }
  rewrite L8. cbn [andb].
  assert (E1 : Qle_bool tc 1.0 = true) by (apply Qle_bool_iff; lra).
  rewrite E1. by eexists.
Qed.

Lemma lerpColors_0 (c0 c1 : THREE.Color) (a : Q) :
  THREE.Color_finite c0 → THREE.Color_finite c1 → a == 0 →
  THREE.Color_equiv (THREE.lerpColors c0 c1 (Fin a)) c0.
Proof.
  intros ([r0 Hr0] & [g0 Hg0] & [b0 Hb0]) ([r1 Hr1] & [g1 Hg1] & [b1 Hb1]) Ha.
  unfold THREE.Color_equiv, THREE.lerpColors. simpl.
  rewrite Hr0, Hg0, Hb0, Hr1, Hg1, Hb1. simpl.
  split_and!; rewrite Ha; ring.
Qed.

Lemma lerpColors_1 (c0 c1 : THREE.Color) (a : Q) :
  THREE.Color_finite c0 → THREE.Color_finite c1 → a == 1 →
  THREE.Color_equiv (THREE.lerpColors c0 c1 (Fin a)) c1.
Proof.
  intros ([r0 Hr0] & [g0 Hg0] & [b0 Hb0]) ([r1 Hr1] & [g1 Hg1] & [b1 Hb1]) Ha.
  unfold THREE.Color_equiv, THREE.lerpColors. simpl.
  rewrite Hr0, Hg0, Hb0, Hr1, Hg1, Hb1. simpl.
  split_and!; rewrite Ha; ring.
Qed.

(** The colour of a fraction between 0 and 1: the interpolation on a
    segment of the palette that brackets it. *)
Lemma getMagmaColor_segment (u : Q) :
  ∃ i s0 s1 t0 t1 tc,
    colorStops !! i = Some s0 ∧ colorStops !! S i = Some s1
    ∧ t s0 = Fin t0 ∧ t s1 = Fin t1
    ∧ tc == clamp01 u ∧ t0 <= tc <= t1 ∧ t0 < t1
    ∧ getMagmaColor (Fin u)
      = THREE.lerpColors (c s0) (c s1) (Fin ((tc - t0) / (t1 - t0))).
Proof.
  destruct (clamp_number u) as (tc & Hclamp & Heq & Hrange).
  unfold getMagmaColor. rewrite Hclamp.
  destruct (findSegment_palette tc Hrange) as [col Hcol]. rewrite Hcol.
  destruct (findSegment_Some _ _ _ Hcol)
    as (i & s0 & s1 & t0 & t1 & Hi & HSi & Ht0 & Ht1 & Hbr & ->).
  exists i, s0, s1, t0, t1, tc.
  assert (Hlt : t0 < t1 ∧ Qeq_bool (t1 - t0) 0 = false).
  { unfold colorStops in Hi, HSi.
    destruct i as [|[|[|[|[|i]]]]]; simpl in Hi, HSi; try done;
      injection Hi as <-; injection HSi as <-; simpl in Ht0, Ht1;
      injection Ht0 as <-; injection Ht1 as <-; split; done. }
  destruct Hlt as [Hlt Hne].
  split_and!; try done; try apply Hbr. unfold num_div. by rewrite Hne.
Qed.
End ColorMapper.

Section ColorMapperClaim.
Context {ext : Externals}.
Import GalaxyParticles.

Lemma colorOf_number (d : object) (m : Q) :
  get d "mass_log" = VNum (Fin m) →
  colorOf d = getMagmaColor (Fin ((m - 6.0) / 5.5)).
Proof. intros Hm. unfold colorOf. by rewrite Hm. Qed.

Lemma palette_first (u : Q) :
  Forall (λ stop, THREE.Color_finite (c stop)) colorStops →
  clamp01 u == 0 →
  THREE.Color_equiv (getMagmaColor (Fin u)) (THREE_Color "#000004").
Proof.
  intros Hfin Hu.
  destruct (getMagmaColor_segment u)
    as (i & s0 & s1 & t0 & t1 & tc & Hi & HSi & Ht0 & Ht1 & Htc & Hbr
        & Hlt & ->).
  rewrite list.Forall_forall in Hfin.
  pose proof (Hfin s0 (list_elem_of_lookup_2 _ _ _ Hi)) as Hf0.
  pose proof (Hfin s1 (list_elem_of_lookup_2 _ _ _ HSi)) as Hf1.
  unfold colorStops in Hi, HSi.
  destruct i as [|[|[|[|[|i]]]]]; simpl in Hi, HSi; try done;
    injection Hi as <-; injection HSi as <-; simpl in Ht0, Ht1;
    injection Ht0 as <-; injection Ht1 as <-; try lra.
  apply lerpColors_0; [done | done |]. rewrite Htc, Hu. reflexivity.
Qed.

Lemma palette_last (u : Q) :
  Forall (λ stop, THREE.Color_finite (c stop)) colorStops →
  clamp01 u == 1 →
  THREE.Color_equiv (getMagmaColor (Fin u)) (THREE_Color "#FCFDBF").
Proof.
  intros Hfin Hu.
  destruct (getMagmaColor_segment u)
    as (i & s0 & s1 & t0 & t1 & tc & Hi & HSi & Ht0 & Ht1 & Htc & Hbr
        & Hlt & ->).
  rewrite list.Forall_forall in Hfin.
  pose proof (Hfin s0 (list_elem_of_lookup_2 _ _ _ Hi)) as Hf0.
  pose proof (Hfin s1 (list_elem_of_lookup_2 _ _ _ HSi)) as Hf1.
  unfold colorStops in Hi, HSi.
  destruct i as [|[|[|[|[|i]]]]]; simpl in Hi, HSi; try done;
    injection Hi as <-; injection HSi as <-; simpl in Ht0, Ht1;
    injection Ht0 as <-; injection Ht1 as <-; try lra.
  apply lerpColors_1; [done | done |]. rewrite Htc, Hu. reflexivity.
Qed.

Lemma clamp01_low (u : Q) : u <= 0 → clamp01 u == 0.
Proof.
  intros Hu. unfold clamp01.
  pose proof (Q.max_spec 0 (Qmin 1 u)). pose proof (Q.min_spec 1 u). lra.
Qed.

Lemma clamp01_high (u : Q) : 1 <= u → clamp01 u == 1.
Proof.
  intros Hu. unfold clamp01.
  pose proof (Q.max_spec 0 (Qmin 1 u)). pose proof (Q.min_spec 1 u). lra.
Qed.

(** C6. The colour mapper maps every [mass_log] to the fraction
    [t = clamp((mass_log - 6.0) / 5.5, 0, 1)] and returns the linear,
    per-channel interpolation of the colours of two consecutive control
    points of the six-point palette whose positions bracket [t].
    Consequently [mass_log = 6.0] ([t = 0]) gives exactly the first
    palette colour and [mass_log = 11.5] ([t = 1]) exactly the last, and
    inputs out of the range, such as 3.25 and 20, are clamped to the
    first and to the last colour. *)
Theorem colorOf_interpolates (d : object) (m : Q) :
  get d "mass_log" = VNum (Fin m) →
  (∃ i s0 s1 t0 t1 tc,
     colorStops !! i = Some s0 ∧ colorStops !! S i = Some s1
     ∧ t s0 = Fin t0 ∧ t s1 = Fin t1
     ∧ tc == clamp01 ((m - 6.0) / 5.5) ∧ t0 <= tc <= t1 ∧ t0 < t1
     ∧ colorOf d
       = THREE.lerpColors (c s0) (c s1) (Fin ((tc - t0) / (t1 - t0)))
     ∧ THREE.r (colorOf d)
       = num_add (THREE.r (c s0))
           (num_mul (num_sub (THREE.r (c s1)) (THREE.r (c s0)))
                    (Fin ((tc - t0) / (t1 - t0))))
     ∧ THREE.g (colorOf d)
       = num_add (THREE.g (c s0))
           (num_mul (num_sub (THREE.g (c s1)) (THREE.g (c s0)))
                    (Fin ((tc - t0) / (t1 - t0))))
     ∧ THREE.b (colorOf d)
       = num_add (THREE.b (c s0))
           (num_mul (num_sub (THREE.b (c s1)) (THREE.b (c s0)))
                    (Fin ((tc - t0) / (t1 - t0)))))
  ∧ (Forall (λ stop, THREE.Color_finite (c stop)) colorStops →
     (m <= 6 → THREE.Color_equiv (colorOf d) (THREE_Color "#000004"))
     ∧ (11.5 <= m → THREE.Color_equiv (colorOf d) (THREE_Color "#FCFDBF"))
     ∧ (m == 6.0 → THREE.Color_equiv (colorOf d) (THREE_Color "#000004"))
     ∧ (m == 11.5 → THREE.Color_equiv (colorOf d) (THREE_Color "#FCFDBF"))
     ∧ (m == 3.25 → THREE.Color_equiv (colorOf d) (THREE_Color "#000004"))
     ∧ (m == 20 → THREE.Color_equiv (colorOf d) (THREE_Color "#FCFDBF"))).
Proof.
  intros Hm. rewrite (colorOf_number d m Hm). split.
  - destruct (getMagmaColor_segment ((m - 6.0) / 5.5))
      as (i & s0 & s1 & t0 & t1 & tc & Hi & HSi & Ht0 & Ht1 & Htc & Hbr
          & Hlt & Hcol).
    exists i, s0, s1, t0, t1, tc. rewrite Hcol.
    split_and!; try done; apply Hbr.
  - intros Hfin.
    assert (Hlow : m <= 6 →
      THREE.Color_equiv (getMagmaColor (Fin ((m - 6.0) / 5.5)))
                        (THREE_Color "#000004")).
    { intros Hle. apply palette_first; [done|]. apply clamp01_low.
      assert (Hdiv : (m - 6.0) / 5.5 == (m - 6) * (2 # 11)) by field.
      rewrite Hdiv. lra. }
    assert (Hhigh : 11.5 <= m →
      THREE.Color_equiv (getMagmaColor (Fin ((m - 6.0) / 5.5)))
                        (THREE_Color "#FCFDBF")).
    { intros Hle. apply palette_last; [done|]. apply clamp01_high.
      assert (Hdiv : (m - 6.0) / 5.5 == (m - 6) * (2 # 11)) by field.
      rewrite Hdiv. lra. }
    split_and!; [done | done | | | |]; intros Heq;
      (apply Hlow; lra) || (apply Hhigh; lra).
Qed.
End ColorMapperClaim.

(** ** The coordinate converter: [handleLocate] *)

Module UIOverlayFacts.
Import Reals UIOverlay CoordinateConverter.
Local Open Scope R_scope.

Lemma d2r_radians (deg : R) : deg * d2r = radians deg.
Proof. unfold d2r, radians. field. Qed.

Lemma radians_0 : radians 0 = 0.
Proof. unfold radians. field. Qed.

Lemma radians_90 : radians 90 = PI / 2.
Proof. unfold radians. field. Qed.

(** C9. For all [ra] and [dec] in degrees and every distance [d], the
    converter returns the Cartesian triple
    [(d cos(dec) cos(ra), d cos(dec) sin(ra), d sin(dec))], with [ra]
    and [dec] converted from degrees to radians first and no check of
    their range; in particular [(ra, dec, dist) = (0, 0, 1)] gives
    [(1, 0, 0)], [(90, 0, 1)] gives [(0, 1, 0)] and [(0, 90, 1)] gives
    [(0, 0, 1)]. *)
Theorem handleLocate_spherical :
  (∀ ra dec d : R,
     handleLocate ra dec d
     = (d * cos (radians dec) * cos (radians ra),
        d * cos (radians dec) * sin (radians ra),
        d * sin (radians dec)))
  ∧ handleLocate 0 0 1 = (1, 0, 0)
  ∧ handleLocate 90 0 1 = (0, 1, 0)
  ∧ handleLocate 0 90 1 = (0, 0, 1).
Proof.
  assert (Hgen : ∀ ra dec d : R,
     handleLocate ra dec d
     = (d * cos (radians dec) * cos (radians ra),
        d * cos (radians dec) * sin (radians ra),
        d * sin (radians dec))).
  { intros ra dec d. unfold handleLocate. by rewrite !d2r_radians. }
  split; [done|].
  rewrite !Hgen, radians_0, radians_90, cos_0, sin_0, cos_PI2, sin_PI2.
  split_and!; f_equal; try f_equal; ring.
Qed.
End UIOverlayFacts.

(** ** Examples on the sample catalogue *)

Section Examples.
Import dataUtils App GalaxyParticles.
Existing Instance sample_externals.

Example loadData_sample :
  loadData sample_rows = [rec_andromeda; rec_and_xii; rec_sculptor].
Proof. vm_compute. reflexivity. Qed.

Example unit_conversion :
  (λ o, (get o "x", get o "y", get o "z", get o "dist_mpc"))
    <$> loadData [row_andromeda]
  = [(VNum (Fin 1.000), VNum (Fin 2.000), VNum (Fin 3.000),
      VNum (Fin 4.000))].
Proof. vm_compute. reflexivity. Qed.

Example processedData_sample :
  processedData sample_state (loadData sample_rows)
  = Ok [<["isMatch" := VBool true]> rec_andromeda;
        <["isMatch" := VBool true]> rec_and_xii;
        <["isMatch" := VBool false]> rec_sculptor].
Proof. vm_compute. reflexivity. Qed.

(** C1, counterexample. Two records match the query "andromeda"; the
    marker is placed on the second one, "Andromeda XII", and not on the
    first one in iteration order, "Andromeda Galaxy". *)
Lemma marker_not_first_match :
  processedData sample_state (loadData sample_rows)
  = Ok [<["isMatch" := VBool true]> rec_andromeda;
        <["isMatch" := VBool true]> rec_and_xii;
        <["isMatch" := VBool false]> rec_sculptor]
  ∧ searchActive sample_state = true
  ∧ List.find isMatch
      [<["isMatch" := VBool true]> rec_andromeda;
       <["isMatch" := VBool true]> rec_and_xii;
       <["isMatch" := VBool false]> rec_sculptor]
    = Some (<["isMatch" := VBool true]> rec_andromeda)
  ∧ markerPosition
      [<["isMatch" := VBool true]> rec_andromeda;
       <["isMatch" := VBool true]> rec_and_xii;
       <["isMatch" := VBool false]> rec_sculptor] 9
      (searchActive sample_state)
    = Some (VNum (Fin 0.500), VNum (Fin 0.600), VNum (Fin 0.700))
  ∧ (get (<["isMatch" := VBool true]> rec_andromeda) "x",
     get (<["isMatch" := VBool true]> rec_andromeda) "y",
     get (<["isMatch" := VBool true]> rec_andromeda) "z")
    = (VNum (Fin 1.000), VNum (Fin 2.000), VNum (Fin 3.000))
  ∧ markerPosition
      [<["isMatch" := VBool true]> rec_andromeda;
       <["isMatch" := VBool true]> rec_and_xii;
       <["isMatch" := VBool false]> rec_sculptor] 9
      (searchActive sample_state)
    ≠ Some (get (<["isMatch" := VBool true]> rec_andromeda) "x",
            get (<["isMatch" := VBool true]> rec_andromeda) "y",
            get (<["isMatch" := VBool true]> rec_andromeda) "z").
Proof.
  split_and!; try (vm_compute; reflexivity).
  vm_compute. intros [=].
Qed.

(** C2, counterexample. In a catalogue with a column [id] that holds 7
    in both rows, both emitted records have the id 7: the ids are not
    the indices 0 and 1, and they are not unique. *)
Lemma loadData_id_from_column :
  (λ o, get o "id") <$> loadData rows_with_id
  = [VNum (Fin 7); VNum (Fin 7)]
  ∧ (λ o, get o "id") <$> loadData rows_with_id
    ≠ [VNum (num_of_nat 0); VNum (num_of_nat 1)]
  ∧ ¬ NoDup ((λ o, get o "id") <$> loadData rows_with_id).
Proof.
  assert (Hids : (λ o, get o "id") <$> loadData rows_with_id
                 = [VNum (Fin 7); VNum (Fin 7)])
    by (vm_compute; reflexivity).
  rewrite Hids. split_and!; [done | intros [=] |].
  intros Hnd. apply NoDup_cons in Hnd as [Hnotin _].
  apply Hnotin. constructor.
Qed.

Example loadData_linear :
  (λ o, get o "mass_log") <$> loadData rows_linear
  = [VNum (Fin 10); VNum (Fin 0); VNum (Fin 0)].
Proof. vm_compute. reflexivity. Qed.

Lemma loadData_id_sample :
  Forall (λ row : object, row !! "id" = None) sample_rows
  ∧ loadData sample_rows !! 1%nat = Some rec_and_xii
  ∧ get rec_and_xii "id" = VNum (num_of_nat 1)
  ∧ ∀ i j oi oj,
      loadData sample_rows !! i = Some oi →
      loadData sample_rows !! j = Some oj →
      get oi "id" = get oj "id" → i = j.
Proof.
  assert (Hnone : Forall (λ row : object, row !! "id" = None) sample_rows)
    by (repeat (apply List.Forall_cons; [reflexivity|]);
        apply List.Forall_nil).
  assert (Hlook : loadData sample_rows !! 1%nat = Some rec_and_xii)
    by (vm_compute; reflexivity).
  split_and!; [done | done | |].
  - destruct (proj1 (loadData_id sample_rows) 1%nat rec_and_xii Hlook)
      as (row & Hrow & Hid & _).
    apply Hid. vm_compute in Hrow. injection Hrow as <-.
    vm_compute. reflexivity.
  - exact (proj2 (loadData_id sample_rows) Hnone).
Defined.

Lemma loadData_mass_log_sample :
  Forall mass_typed rows_linear
  ∧ (isLinear rows_linear = true ↔ 20 < maxMassSpec rows_linear)
  ∧ ∃ row, List.filter hasCoords rows_linear !! 0%nat = Some row ∧
      match get row "mass_stellar" with
      | VNum (Fin m) =>
          (20 < maxMassSpec rows_linear → 0 < m →
           get (normalizeRow true 0 row) "mass_log"
           = VNum (Math_log10 (Fin m)))
          ∧ (¬ (20 < maxMassSpec rows_linear ∧ 0 < m) →
             get (normalizeRow true 0 row) "mass_log" = VNum (Fin m)
             ∨ (m == 0
                ∧ get (normalizeRow true 0 row) "mass_log" = VNum (Fin 0)))
          ∧ (m == 0 → ∃ z,
               get (normalizeRow true 0 row) "mass_log" = VNum (Fin z)
               ∧ z == 0)
      | _ => get (normalizeRow true 0 row) "mass_log" = VNum (Fin 0)
      end.
Proof.
  assert (Hty : Forall mass_typed rows_linear).
  { apply List.Forall_cons; [left; by eexists|].
    apply List.Forall_cons; [right; by left|].
    apply List.Forall_cons; [left; by eexists|].
    apply List.Forall_nil. }
  split; [done|].
  destruct (loadData_mass_log rows_linear Hty) as [Hlin Hrec].
  split; [done|].
  destruct (Hrec 0%nat (normalizeRow true 0
              (catalog_row (VStr "Andromeda Galaxy") 1000 2000 3000 4000
                 (VNum (Fin 10000000000)))))
    as (row & Hrow & Hmass); [vm_compute; reflexivity|].
  exists row. split; [done|].
  vm_compute in Hrow. injection Hrow as <-. exact Hmass.
Defined.

Lemma processedData_filter_sample :
  Forall record_typed sample_records
  ∧ ∀ d, d ∈ List.filter (keep sample_state) sample_records ↔
         d ∈ sample_records ∧ visible sample_state d.
Proof.
  assert (Hty : Forall record_typed sample_records).
  { repeat (apply List.Forall_cons;
              [eexists _, _; split; vm_compute; reflexivity|]).
    apply List.Forall_nil. }
  split; [done|].
  exact (proj1 (processedData_filter sample_state sample_records Hty)).
Defined.

Lemma processedData_isMatch_sample :
  searchQuery sample_state ≠ ""
  ∧ Forall (λ d, ∃ n, get d "name" = VStr n)
           (List.filter (keep sample_state) sample_records)
  ∧ ∃ out, processedData sample_state sample_records = Ok out.
Proof.
  assert (Hq : searchQuery sample_state ≠ "") by (intros [=]).
  assert (Hnames : Forall (λ d, ∃ n, get d "name" = VStr n)
             (List.filter (keep sample_state) sample_records)).
  { vm_compute List.filter.
    repeat (apply List.Forall_cons; [eexists; vm_compute; reflexivity|]).
    apply List.Forall_nil. }
  split_and!; [done | done |].
  exact (proj1 (proj2 (processedData_isMatch sample_state sample_records))
           Hq Hnames).
Defined.

Lemma colorOf_sample :
  get ({["mass_log" := VNum (Fin 11.5)]} : object) "mass_log"
  = VNum (Fin 11.5)
  ∧ Forall (λ stop, THREE.Color_finite (c stop)) colorStops
  ∧ THREE.Color_equiv (colorOf {["mass_log" := VNum (Fin 11.5)]})
                      (THREE_Color "#FCFDBF").
Proof.
  assert (Hm : get ({["mass_log" := VNum (Fin 11.5)]} : object) "mass_log"
               = VNum (Fin 11.5)) by reflexivity.
  assert (Hfin : Forall (λ stop, THREE.Color_finite (c stop)) colorStops).
  { repeat (apply List.Forall_cons;
              [split_and!; eexists; reflexivity|]).
    apply List.Forall_nil. }
  split_and!; [done | done |].
  destruct (proj2 (colorOf_interpolates _ 11.5 Hm) Hfin)
    as (_ & _ & _ & Hlast & _).
  apply Hlast. reflexivity.
Defined.

Lemma baseSize_sample :
  get ({["mass_log" := VNum (Fin 8)]} : object) "mass_log" = VNum (Fin 8)
  ∧ baseSize {["mass_log" := VNum (Fin 8)]} = Fin 2.5.
Proof.
  assert (Hm : get ({["mass_log" := VNum (Fin 8)]} : object) "mass_log"
               = VNum (Fin 8)) by reflexivity.
  split; [done|].
  destruct (baseSize_buckets _ 8 Hm) as (_ & _ & _ & H8 & _).
  apply H8. reflexivity.
Defined.

Lemma processedData_throws_sample :
  searchQuery sample_state ≠ ""
  ∧ keep sample_state rec_nameless = true
  ∧ get rec_nameless "name" = VNull
  ∧ processedData sample_state [rec_andromeda; rec_nameless]
    = Throw TypeError
  ∧ ∃ o, o ∈ loadData [row_nameless]
         ∧ (get o "name" = VNull ∨ get o "name" = VUndefined).
Proof.
  assert (Hq : searchQuery sample_state ≠ "") by (intros [=]).
  assert (Hkeep : keep sample_state rec_nameless = true)
    by (vm_compute; reflexivity).
  assert (Hname : get rec_nameless "name" = VNull)
    by (vm_compute; reflexivity).
  split_and!; [done | done | done | |].
  - apply (proj1 processedData_throws_without_name sample_state _
             rec_nameless); [done | | done | by left].
    apply list_elem_of_further, list_elem_of_here.
  - apply (proj1 (proj2 processedData_throws_without_name) [row_nameless]
             row_nameless);
      [apply list_elem_of_here | vm_compute; reflexivity | ].
    left. vm_compute. reflexivity.
Defined.
End Examples.

(** * Further properties *)

(** ** Record normalisation *)

Section DataUtilsMore.
Context {ext : Externals}.
Import dataUtils.

Lemma num_div_1000 (q : Q) : num_div (Fin q) (Fin 1000) = Fin (q / 1000).
Proof. reflexivity. Qed.

Lemma normalizeRow_x isLin i (row : object) :
  get (normalizeRow isLin i row) "x"
  = VNum (num_div (ToNumber (get row "sg_xx")) (Fin 1000)).
Proof.
  unfold get, normalizeRow.
  rewrite !lookup_insert_ne by done. by rewrite lookup_insert_eq.
Qed.

Lemma normalizeRow_y isLin i (row : object) :
  get (normalizeRow isLin i row) "y"
  = VNum (num_div (ToNumber (get row "sg_yy")) (Fin 1000)).
Proof.
  unfold get, normalizeRow.
  rewrite !lookup_insert_ne by done. by rewrite lookup_insert_eq.
Qed.

Lemma normalizeRow_z isLin i (row : object) :
  get (normalizeRow isLin i row) "z"
  = VNum (num_div (ToNumber (get row "sg_zz")) (Fin 1000)).
Proof.
  unfold get, normalizeRow.
  rewrite !lookup_insert_ne by done. by rewrite lookup_insert_eq.
Qed.

Lemma normalizeRow_dist_mpc isLin i (row : object) :
  get (normalizeRow isLin i row) "dist_mpc"
  = VNum (num_div (ToNumber (js_or (get row "distance") (VNum (Fin 0))))
                  (Fin 1000)).
Proof. unfold get, normalizeRow. by rewrite lookup_insert_eq. Qed.

Lemma dist_mpc_typed (row : object) :
  distance_typed row →
  ∃ dist,
    num_div (ToNumber (js_or (get row "distance") (VNum (Fin 0)))) (Fin 1000)
    = Fin dist.
Proof.
  intros [[q Hq]|[Hq|Hq]]; rewrite Hq; unfold js_or; simpl.
  - destruct (Qeq_bool q 0); simpl; by eexists.
  - by eexists.
  - by eexists.
Qed.

(** X1. Unit conversion: a coordinate column that holds a number [q]
    gives the position component [q / 1000], and [dist_mpc] is the
    column [distance] divided by 1000, or 0 when the distance is
    missing. *)
Theorem loadData_units (rows : list object) (i : nat) (o : object) :
  loadData rows !! i = Some o →
  ∃ row, List.filter hasCoords rows !! i = Some row
    ∧ (∀ q, get row "sg_xx" = VNum (Fin q) → get o "x" = VNum (Fin (q / 1000)))
    ∧ (∀ q, get row "sg_yy" = VNum (Fin q) → get o "y" = VNum (Fin (q / 1000)))
    ∧ (∀ q, get row "sg_zz" = VNum (Fin q) → get o "z" = VNum (Fin (q / 1000)))
    ∧ (∀ q, get row "distance" = VNum (Fin q) →
         ∃ dist, get o "dist_mpc" = VNum (Fin dist) ∧ dist == q / 1000)
    ∧ (get row "distance" = VNull ∨ get row "distance" = VUndefined →
         ∃ dist, get o "dist_mpc" = VNum (Fin dist) ∧ dist == 0).
Proof.
  intros Ho. apply loadData_lookup in Ho as (row & Hrow & ->).
  exists row. split; [done|].
  rewrite normalizeRow_x, normalizeRow_y, normalizeRow_z,
    normalizeRow_dist_mpc.
  split_and!.
  - by intros q ->.
  - by intros q ->.
  - by intros q ->.
  - intros q Hq. rewrite Hq. unfold js_or. simpl.
    destruct (Qeq_bool q 0) eqn:E; simpl.
    + apply Qeq_bool_iff in E. eexists. split; [reflexivity|].
      rewrite E. reflexivity.
    + eexists. split; reflexivity.
  - intros [Hq|Hq]; rewrite Hq; eexists; (split; [reflexivity|]);
      reflexivity.
Qed.

(** X2. The five derived fields always win over columns of the same
    name: a column [x], [y], [z], [mass_log] or [dist_mpc] of the input
    row has no influence on the emitted record. *)
Theorem normalizeRow_ignores_derived_columns (isLin : bool) (i : nat)
  (row : object) (k : string) (v : value) :
  k ∈ derived_fields →
  normalizeRow isLin i (<[k := v]> row) = normalizeRow isLin i row.
Proof.
  intros Hk.
  assert (Hget : ∀ col, col ∉ derived_fields →
                        get (<[k := v]> row) col = get row col).
  { intros col Hcol. unfold get. rewrite lookup_insert_ne; [done|].
    by intros ->. }
  unfold normalizeRow, massOf. rewrite !Hget by field_not_in.
  apply map_eq. intros j.
  destruct (decide (j = "dist_mpc")) as [->|Hn1];
    [by rewrite !lookup_insert_eq|].
  rewrite !(lookup_insert_ne _ "dist_mpc") by done.
  destruct (decide (j = "mass_log")) as [->|Hn2];
    [by rewrite !lookup_insert_eq|].
  rewrite !(lookup_insert_ne _ "mass_log") by done.
  destruct (decide (j = "z")) as [->|Hn3]; [by rewrite !lookup_insert_eq|].
  rewrite !(lookup_insert_ne _ "z") by done.
  destruct (decide (j = "y")) as [->|Hn4]; [by rewrite !lookup_insert_eq|].
  rewrite !(lookup_insert_ne _ "y") by done.
  destruct (decide (j = "x")) as [->|Hn5]; [by rewrite !lookup_insert_eq|].
  rewrite !(lookup_insert_ne _ "x") by done.
  rewrite !lookup_union, lookup_insert_ne; [done|].
  intros ->. unfold derived_fields in Hk.
  repeat (apply elem_of_cons in Hk as [Hk|Hk]; [congruence|]).
  by apply elem_of_nil in Hk.
Qed.
End DataUtilsMore.

Section PipelineMore.
Context {ext : Externals}.
Import dataUtils App.

Lemma massOf_typed (isLin : bool) (row : object) :
  log10_finite → mass_typed row → ∃ mass, massOf isLin row = VNum (Fin mass).
Proof.
  intros Hlog [[m Hm]|Hmiss].
  - destruct (massOf_number isLin row m Hm) as [Hlin Hsame].
    destruct isLin; [destruct (Qlt_le_dec 0 m) as [Hpos|Hle]|].
    + destruct (Hlog m Hpos) as [l Hl]. exists l.
      rewrite Hlin by done. by rewrite Hl.
    + destruct Hsame as [Heq|[_ Heq]]; [intros [_ ?]; lra | |]; by eexists.
    + destruct Hsame as [Heq|[_ Heq]]; [by intros [? _] | |]; by eexists.
  - exists 0. by apply massOf_missing.
Qed.

Lemma filter_lookup_elem {A} (f : A → bool) (l : list A) (i : nat) (a : A) :
  List.filter f l !! i = Some a → a ∈ l ∧ f a = true.
Proof.
  intros Hi. apply list_elem_of_lookup_2, list_elem_of_In, List.filter_In in Hi.
  rewrite list_elem_of_In. done.
Qed.

Lemma loadData_typed (rows : list object) :
  log10_finite → Forall mass_typed rows → Forall distance_typed rows →
  Forall record_typed (loadData rows).
Proof.
  intros Hlog Hmass Hdist. apply list.Forall_forall. intros o Ho.
  apply list_elem_of_lookup in Ho as [i Ho].
  apply loadData_lookup in Ho as (row & Hrow & ->).
  apply filter_lookup_elem in Hrow as [Hin _].
  rewrite list.Forall_forall in Hmass, Hdist.
  destruct (massOf_typed (isLinear rows) row Hlog (Hmass _ Hin)) as [m Hm].
  destruct (dist_mpc_typed row (Hdist _ Hin)) as [d Hd].
  exists d, m. rewrite normalizeRow_dist_mpc, normalizeRow_mass_log.
  by rewrite Hd, Hm.
Qed.

(** X3. When the columns [mass_stellar] and [distance] of every row hold
    a number or are missing (and the logarithm of a positive number is a
    number), every emitted record has numbers in [dist_mpc] and
    [mass_log]; the records that the filter keeps from a load are then
    exactly the emitted records inside the distance and mass limits. *)
Theorem loadData_then_filter (rows : list object) (st : FilterState) :
  log10_finite → Forall mass_typed rows → Forall distance_typed rows →
  Forall record_typed (loadData rows)
  ∧ ∀ d, d ∈ List.filter (keep st) (loadData rows) ↔
         d ∈ loadData rows ∧ visible st d.
Proof.
  intros Hlog Hmass Hdist.
  pose proof (loadData_typed rows Hlog Hmass Hdist) as Hty.
  split; [done|]. intros d.
  rewrite !list_elem_of_In, List.filter_In, <- list_elem_of_In. split.
  - intros [Hin Hkeep]. split; [done|].
    apply keep_typed_visible; [|done].
    rewrite list.Forall_forall in Hty. by apply Hty.
  - intros [Hin Hvis]. split; [done | by apply keep_visible].
Qed.

(** X4. A row without stellar mass is emitted with [mass_log = 0], so
    the filter removes its record as soon as [minMass] is positive. *)
Theorem missing_mass_is_filtered (rows : list object) (st : FilterState)
  (i : nat) (o : object) :
  loadData rows !! i = Some o →
  0 < minMass st →
  ∃ row, List.filter hasCoords rows !! i = Some row
    ∧ (get row "mass_stellar" = VNull ∨ get row "mass_stellar" = VUndefined →
       get o "mass_log" = VNum (Fin 0) ∧ keep st o = false).
Proof.
  intros Ho Hmin. apply loadData_lookup in Ho as (row & Hrow & ->).
  exists row. split; [done|]. intros Hmiss.
  rewrite normalizeRow_mass_log, (massOf_missing _ _ Hmiss).
  split; [done|]. unfold keep.
  destruct (js_gt _ (VNum (Fin (maxDist st)))); [done|].
  rewrite normalizeRow_mass_log, (massOf_missing _ _ Hmiss).
  unfold js_lt. simpl.
  assert (Hlt : Qltb 0 (minMass st) = true) by by apply Qltb_lt.
  by rewrite Hlt.
Qed.
End PipelineMore.

(** ** The filter pass *)

Section FilterMore.
Context {ext : Externals}.
Import App.

Lemma num_lt_mono_l (a a' : Q) (n : number) :
  a <= a' → num_lt (Fin a') n = true → num_lt (Fin a) n = true.
Proof.
  destruct n as [x|]; simpl; [|done].
  rewrite !Qltb_lt. lra.
Qed.

Lemma num_lt_mono_r (a a' : Q) (n : number) :
  a <= a' → num_lt n (Fin a) = true → num_lt n (Fin a') = true.
Proof.
  destruct n as [x|]; simpl; [|done].
  rewrite !Qltb_lt. lra.
Qed.

Lemma js_gt_num (v : value) (q : Q) :
  js_gt v (VNum (Fin q)) = num_lt (Fin q) (ToNumber v).
Proof. unfold js_gt, js_lt. by destruct v. Qed.

Lemma js_lt_num (v : value) (q : Q) :
  js_lt v (VNum (Fin q)) = num_lt (ToNumber v) (Fin q).
Proof. unfold js_lt. by destruct v. Qed.

(** X5. The filter is monotone in its controls: a record kept under one
    filter state is kept under every state with a larger or equal
    [maxDist], a smaller or equal [minMass] and the local group filter
    off or unchanged. *)
Theorem keep_monotone (st st' : FilterState) (d : object) :
  maxDist st <= maxDist st' → minMass st' <= minMass st →
  (showLocalGroup st' = true → showLocalGroup st = true) →
  keep st d = true → keep st' d = true.
Proof.
  intros Hmax Hmin Hlg. unfold keep. rewrite !js_gt_num, !js_lt_num.
  destruct (num_lt (Fin (maxDist st)) _) eqn:E1; [done|].
  destruct (num_lt _ (Fin (minMass st))) eqn:E2; [done|].
  destruct (num_lt (Fin (maxDist st')) _) eqn:E1'.
  { by rewrite (num_lt_mono_l _ _ _ Hmax E1') in E1. }
  destruct (num_lt _ (Fin (minMass st'))) eqn:E2'.
  { by rewrite (num_lt_mono_r _ _ _ Hmin E2') in E2. }
  destruct (showLocalGroup st') eqn:E3; [|done].
  by rewrite Hlg.
Qed.

(** X6. With [maxDist] at most 3 the local group filter changes
    nothing: the same records are kept with the box checked or not. *)
Theorem local_group_redundant (st st' : FilterState) (d : object) :
  maxDist st <= 3 → maxDist st' = maxDist st → minMass st' = minMass st →
  keep st d = keep st' d.
Proof.
  intros H3 Hmax Hmin. unfold keep. rewrite Hmax, Hmin, !js_gt_num, !js_lt_num.
  destruct (num_lt (Fin (maxDist st)) _) eqn:E1; [done|].
  destruct (num_lt _ (Fin (minMass st))); [done|].
  assert (E3 : num_lt (Fin 3.0) (ToNumber (get d "dist_mpc")) = false).
  { destruct (num_lt (Fin 3.0) _) eqn:E; [|done].
    assert (H3' : maxDist st <= 3.0) by lra.
    by rewrite (num_lt_mono_l _ _ _ H3' E) in E1. }
  by rewrite E3, !andb_false_r.
Qed.

Lemma keep_insert_isMatch (st : FilterState) (d : object) (b : bool) :
  keep st (<["isMatch" := VBool b]> d) = keep st d.
Proof.
  unfold keep, get. by rewrite !lookup_insert_ne.
Qed.

Lemma annotate_again (st : FilterState) (lq : string) (d o : object) :
  annotate st lq d = Ok o → annotate st lq o = Ok o.
Proof.
  unfold annotate. destruct (ToBoolean (VStr (searchQuery st))).
  - destruct (get d "name") as [| | | |n] eqn:Hn; simpl; try done.
    intros [= <-]. rewrite insert_isMatch_name, Hn. simpl.
    by rewrite insert_insert_eq.
  - simpl. intros [= <-]. by rewrite insert_insert_eq.
Qed.

Lemma array_map_fixed {A} (f : A → result A) (l : list A) :
  Forall (λ a, f a = Ok a) l → array_map f l = Ok l.
Proof.
  induction 1 as [|a l Ha _ IH]; simpl; [done|]. by rewrite Ha, IH.
Qed.

Lemma filter_all {A} (f : A → bool) (l : list A) :
  Forall (λ a, f a = true) l → List.filter f l = l.
Proof.
  induction 1 as [|a l Ha _ IH]; simpl; [done|]. by rewrite Ha, IH.
Qed.

(** X7. The filter pass is idempotent: applied to its own output, under
    the same filter state, it returns that output unchanged. *)
Theorem processedData_idempotent (st : FilterState) (data out : list object) :
  processedData st data = Ok out → processedData st out = Ok out.
Proof.
  unfold processedData. intros Hout. apply array_map_inv in Hout.
  assert (Hkeep : Forall (λ o, keep st o = true) out).
  { apply list.Forall_forall. intros o Ho.
    apply list_elem_of_lookup in Ho as [i Ho].
    destruct (Forall2_lookup_r _ _ _ _ _ Hout Ho) as (d & Hd & Hann).
    apply filter_lookup_elem in Hd as [_ Hd].
    apply annotate_Ok in Hann as [b ->]. by rewrite keep_insert_isMatch. }
  rewrite (filter_all _ _ Hkeep). apply array_map_fixed.
  apply list.Forall_forall. intros o Ho.
  apply list_elem_of_lookup in Ho as [i Ho].
  destruct (Forall2_lookup_r _ _ _ _ _ Hout Ho) as (d & _ & Hann).
  by apply annotate_again in Hann.
Qed.

Lemma toLowerCase_empty (s : string) : toLowerCase s = "" ↔ s = "".
Proof. by destruct s. Qed.

(** X8. The search ignores the letter case of the query: two filter
    states that differ only in the case of the letters of [searchQuery]
    give the same result on every data set, exception included. *)
Theorem processedData_query_case (st st' : FilterState) (data : list object) :
  maxDist st' = maxDist st → minMass st' = minMass st →
  showLocalGroup st' = showLocalGroup st →
  toLowerCase (searchQuery st') = toLowerCase (searchQuery st) →
  processedData st' data = processedData st data.
Proof.
  intros Hmax Hmin Hlg Hq. unfold processedData. rewrite Hq.
  assert (Hkeep : ∀ d, keep st' d = keep st d).
  { intros d. unfold keep. by rewrite Hmax, Hmin, Hlg. }
  assert (Hfilter : List.filter (keep st') data = List.filter (keep st) data).
  { induction data as [|d data IH]; simpl; [done|]. by rewrite Hkeep, IH. }
  rewrite Hfilter. apply array_map_ext. apply list.Forall_forall.
  intros d _. unfold annotate.
  assert (Hactive : ToBoolean (VStr (searchQuery st'))
                    = ToBoolean (VStr (searchQuery st))).
  { simpl. f_equal.
    destruct (String.eqb_spec (searchQuery st') "") as [E'|E'];
      destruct (String.eqb_spec (searchQuery st) "") as [E|E]; try done.
    - exfalso. apply E. apply toLowerCase_empty. by rewrite <- Hq, E'.
    - exfalso. apply E'. apply toLowerCase_empty. by rewrite Hq, E. }
  by rewrite Hactive.
Qed.
End FilterMore.

(** ** The attribute buffers and the picking *)

Lemma flat_map_lookup3 {A B} (f : A → list B) (l : list A) (i j : nat)
  (a : A) :
  (∀ x, length (f x) = 3%nat) → (j < 3)%nat → l !! i = Some a →
  flat_map f l !! (3 * i + j)%nat = f a !! j.
Proof.
  intros Hlen Hj. revert i. induction l as [|x l IH]; intros i Hi; [done|].
  change (flat_map f (x :: l)) with (f x ++ flat_map f l).
  destruct i as [|i].
  - injection Hi as ->. rewrite lookup_app_l by (rewrite Hlen; lia).
    by rewrite Nat.mul_0_r, Nat.add_0_l.
  - rewrite lookup_app_r by (rewrite Hlen; lia). rewrite Hlen.
    replace (3 * S i + j - 3)%nat with (3 * i + j)%nat by lia. by apply IH.
Qed.

Lemma flat_map_length3 {A B} (f : A → list B) (l : list A) :
  (∀ x, length (f x) = 3%nat) → length (flat_map f l) = (3 * length l)%nat.
Proof.
  intros Hlen. induction l as [|x l IH]; simpl; [done|].
  rewrite length_app, Hlen, IH. lia.
Qed.

Section BuffersMore.
Context {ext : Externals}.
Import GalaxyParticles.

(** The loop as comprehensions: what each buffer holds after the loop
    has run over [data] from the index [i]. *)
Lemma forEach_buffers (thr : Q) (sa : bool) (data : list object) (i : nat)
  (st : Buffers) :
  pos (forEach_from (step thr sa) i data st)
  = pos st ++ flat_map coordinates data
  ∧ cols (forEach_from (step thr sa) i data st)
    = cols st ++ flat_map channels data
  ∧ s (forEach_from (step thr sa) i data st) = s st ++ map baseSize data
  ∧ particlesList (forEach_from (step thr sa) i data st)
    = particlesList st ++ imap (tagged i) data
  ∧ labeled (forEach_from (step thr sa) i data st)
    = labeled st ++ List.filter (isMassive thr) data.
Proof.
  revert i st. induction data as [|d data IH]; intros i st.
  - simpl. by rewrite !app_nil_r.
  - cbn [forEach_from]. destruct (IH (S i) (step thr sa st d i))
      as (Hpos & Hcols & Hs & Hpart & Hlab).
    rewrite Hpos, Hcols, Hs, Hpart, Hlab. cbn [step pos cols s particlesList
      labeled flat_map map List.filter imap].
    rewrite <- !app_assoc. split_and!; try done.
    + f_equal. unfold tagged at 2. rewrite Nat.add_0_r. simpl. f_equal.
      apply imap_ext. intros j x _. unfold tagged. simpl.
      by rewrite Nat.add_succ_r.
    + unfold isMassive at 2. destruct (js_gt _ _); [|done].
      by rewrite <- app_assoc.
Qed.

(** X9. The buffers are parallel arrays: for [n] records the position
    and colour buffers hold [3 n] numbers and the size buffer and the
    list used for picking hold [n] entries. *)
Theorem useMemo_buffer_sizes (data : list object) (thr : Q) (sa : bool) :
  length (pos (useMemo data thr sa)) = (3 * length data)%nat
  ∧ length (cols (useMemo data thr sa)) = (3 * length data)%nat
  ∧ length (s (useMemo data thr sa)) = length data
  ∧ length (particlesList (useMemo data thr sa)) = length data.
Proof.
  unfold useMemo, forEach.
  destruct (forEach_buffers thr sa data 0 init)
    as (-> & -> & -> & -> & _).
  simpl. rewrite !flat_map_length3 by done.
  by rewrite length_map, length_imap.
Qed.

(** X10. Slot [i] of every buffer belongs to the [i]-th record: the
    position buffer holds its [x], [y], [z] at [3 i], [3 i + 1],
    [3 i + 2], the colour buffer its colour channels at the same
    offsets, the size buffer its size at [i], and a pointer hit on the
    point [i] reports that record, with [originalIndex = i]. A hit with
    an index beyond the last record reports no record, and an event
    without an index leaves the hovered record as it was. *)
Theorem useMemo_slots (data : list object) (thr : Q) (sa : bool) :
  (∀ i d, data !! i = Some d →
     pos (useMemo data thr sa) !! (3 * i)%nat = Some (get d "x")
     ∧ pos (useMemo data thr sa) !! (3 * i + 1)%nat = Some (get d "y")
     ∧ pos (useMemo data thr sa) !! (3 * i + 2)%nat = Some (get d "z")
     ∧ cols (useMemo data thr sa) !! (3 * i)%nat
       = Some (THREE.r (colorOf d))
     ∧ cols (useMemo data thr sa) !! (3 * i + 1)%nat
       = Some (THREE.g (colorOf d))
     ∧ cols (useMemo data thr sa) !! (3 * i + 2)%nat
       = Some (THREE.b (colorOf d))
     ∧ s (useMemo data thr sa) !! i = Some (baseSize d)
     ∧ ∀ hovered,
         Picking.onPointerMove (particlesList (useMemo data thr sa))
           (Some i) hovered
         = Some (<["originalIndex" := VNum (num_of_nat i)]> d))
  ∧ (∀ i hovered, (length data <= i)%nat →
       Picking.onPointerMove (particlesList (useMemo data thr sa))
         (Some i) hovered = None)
  ∧ (∀ hovered,
       Picking.onPointerMove (particlesList (useMemo data thr sa))
         None hovered = hovered).
Proof.
  unfold useMemo, forEach.
  destruct (forEach_buffers thr sa data 0 init)
    as (-> & -> & -> & -> & _).
  cbn [pos cols s particlesList init app]. split_and!.
  - intros i d Hd.
    pose proof (flat_map_lookup3 coordinates data i 0 d) as Hx.
    pose proof (flat_map_lookup3 coordinates data i 1 d) as Hy.
    pose proof (flat_map_lookup3 coordinates data i 2 d) as Hz.
    pose proof (flat_map_lookup3 channels data i 0 d) as Hr.
    pose proof (flat_map_lookup3 channels data i 1 d) as Hg.
    pose proof (flat_map_lookup3 channels data i 2 d) as Hb.
    rewrite Nat.add_0_r in Hx, Hr.
    rewrite Hx, Hy, Hz, Hr, Hg, Hb by (done || lia).
    rewrite list_lookup_fmap, Hd. split_and!; try done.
    intros hovered. simpl. by rewrite list_lookup_imap, Hd.
  - intros i hovered Hi. simpl. apply lookup_ge_None.
    by rewrite length_imap.
  - done.
Qed.
End BuffersMore.

(** ** Labels, classification and the info panel *)

Section LabelsMore.
Context {ext : Externals}.
Import GalaxyParticles.

(** X11. The labelled galaxies are the records with [mass_log] strictly
    above the threshold, in the order of the data, and they are the
    records that the info panel calls "MASSIVE": a record is labelled
    iff it is in the data and its classification is "MASSIVE". *)
Theorem labeled_spec (data : list object) (thr : Q) (sa : bool) :
  labeled (useMemo data thr sa) = List.filter (isMassive thr) data
  ∧ labeled (useMemo data thr sa) `sublist_of` data
  ∧ ∀ d, d ∈ labeled (useMemo data thr sa) ↔
         d ∈ data ∧ InfoPanel.classification d thr = "MASSIVE".
Proof.
  assert (Hlab : labeled (useMemo data thr sa)
                 = List.filter (isMassive thr) data).
  { unfold useMemo, forEach.
    by destruct (forEach_buffers thr sa data 0 init) as (_ & _ & _ & _ & ->). }
  rewrite Hlab. split_and!; [done | apply filter_sublist |].
  intros d. rewrite !list_elem_of_In, List.filter_In.
  unfold InfoPanel.classification, isMassive.
  destruct (js_gt _ _); split; intros [? ?]; done.
Qed.


(** X13. The size never decreases with the mass: of two records with
    numeric [mass_log], the one with the larger mass has the larger or
    equal size. *)
Theorem baseSize_monotone (d1 d2 : object) (m1 m2 : Q) :
  get d1 "mass_log" = VNum (Fin m1) → get d2 "mass_log" = VNum (Fin m2) →
  m1 <= m2 → size_le (baseSize d1) (baseSize d2).
Proof.
  intros H1 H2 Hle. unfold baseSize. rewrite !js_lt_num, H1, H2. simpl.
  destruct (Qltb m1 8.0) eqn:E1; destruct (Qltb m1 10.0) eqn:E1';
    destruct (Qltb m2 8.0) eqn:E2; destruct (Qltb m2 10.0) eqn:E2';
    simpl; try done;
    repeat match goal with
    | H : Qltb _ _ = true |- _ => apply Qltb_lt in H
    | H : Qltb _ _ = false |- _ => apply Qltb_ge in H
    end; lra.
Qed.
End LabelsMore.

Section InfoPanelMore.
Context {ext : Externals}.
Variable toFixed : number → nat → string.
Import InfoPanel.

(** X14. The info panel is rendered iff nothing is hovered or the
    hovered record has numbers in [dist_mpc] and [mass_log]; otherwise
    the call of [toFixed] throws. In particular it is rendered for every
    record that satisfies the data model. *)
Theorem infoPanel_renders (hovered : option object) (thr : Q) :
  (hovered = None → infoPanel toFixed hovered thr = Ok None)
  ∧ (∀ h, hovered = Some h →
       ((∃ panel, infoPanel toFixed hovered thr = Ok (Some panel)) ↔
        (∃ dist mass, get h "dist_mpc" = VNum dist
                      ∧ get h "mass_log" = VNum mass))
       ∧ (infoPanel toFixed hovered thr = Throw TypeError ↔
          ¬ (∃ dist mass, get h "dist_mpc" = VNum dist
                          ∧ get h "mass_log" = VNum mass))
       ∧ (record_typed h →
          ∃ panel, infoPanel toFixed hovered thr = Ok (Some panel)
                   ∧ kind panel = classification h thr
                   ∧ title panel = get h "name")).
Proof.
  split; [by intros ->|]. intros h ->. unfold infoPanel, call_toFixed.
  split_and!.
  - split.
    + intros [panel Hp].
      destruct (get h "dist_mpc") as [| | |dist|]; try done.
      destruct (get h "mass_log") as [| | |mass|]; try done.
      by exists dist, mass.
    + intros (dist & mass & -> & ->). by eexists.
  - split.
    + intros Hthrow (dist & mass & Hd & Hm). by rewrite Hd, Hm in Hthrow.
    + intros Hnot.
      destruct (get h "dist_mpc") as [| | |dist|]; try done.
      destruct (get h "mass_log") as [| | |mass|]; try done.
      destruct Hnot. by exists dist, mass.
  - intros (dist & mass & -> & ->). by eexists.
Qed.
End InfoPanelMore.

(** ** The data load *)

Section AppLoadMore.
Context {ext : Externals}.
Import AppLoad.

(** X15. The component shows the loading text until the load settles.
    After a successful load it shows the explorer with the loaded
    records; after a failed load it shows the error text and never the
    explorer, with the message of the error, or with "Failed to load
    data" when the error has no message. *)
Theorem render_after_load :
  render initial = LoadingScreen
  ∧ (∀ d, render (onLoaded d initial) = Explorer d)
  ∧ (∀ err, ∃ message,
       render (onFailed err initial) = ErrorScreen message
       ∧ (ToBoolean (get err "message") = true → message = get err "message")
       ∧ (ToBoolean (get err "message") = false →
          message = VStr "Failed to load data")).
Proof.
  split_and!; [done | done |]. intros err.
  unfold render, onFailed, js_or. simpl.
  destruct (ToBoolean (get err "message")) eqn:E.
  - rewrite E. by eexists.
  - simpl. by eexists.
Qed.
End AppLoadMore.

(** ** The marker of the search, from the filter state to the scene *)

Section MarkerMore.
Context {ext : Externals}.
Import App GalaxyParticles.

Lemma processedData_annotated (st : FilterState) (data : list object) :
  searchQuery st ≠ "" →
  Forall (λ d, ∃ n, get d "name" = VStr n) (List.filter (keep st) data) →
  processedData st data
  = Ok (map (annotated (toLowerCase (searchQuery st)))
            (List.filter (keep st) data)).
Proof.
  intros Hq Hnames. unfold processedData.
  erewrite array_map_ext; [apply array_map_Ok|].
  eapply Forall_impl; [exact Hnames|]. intros d [n Hn]. simpl.
  rewrite (annotate_string_name st _ n) by done.
  unfold annotated, nameMatches. by rewrite Hn.
Qed.

Lemma filter_isMatch_annotated (lq : string) (l : list object) :
  List.filter isMatch (map (annotated lq) l)
  = map (annotated lq) (List.filter (nameMatches lq) l).
Proof.
  induction l as [|d l IH]; simpl; [done|].
  unfold isMatch at 1, annotated at 1. rewrite insert_isMatch_get. simpl.
  destruct (nameMatches lq d); simpl; by rewrite IH.
Qed.

Lemma last_map {A B} (f : A → B) (l : list A) :
  last (map f l) = f <$> last l.
Proof.
  induction l as [|a l IH]; [done|]. simpl map. rewrite !last_cons, IH.
  by destruct (last l).
Qed.

Lemma filter_none {A} (f : A → bool) (l : list A) :
  Forall (λ a, f a = false) l → List.filter f l = [].
Proof.
  induction 1 as [|a l Ha _ IH]; simpl; [done|]. by rewrite Ha.
Qed.

Lemma position_annotated (lq : string) (d : object) :
  position (annotated lq d) = position d.
Proof.
  unfold position, annotated, get. by rewrite !lookup_insert_ne.
Qed.

Lemma markerPosition_last (data : list object) (thr : Q) :
  markerPosition data thr true
  = position <$> last (List.filter isMatch data).
Proof.
  unfold markerPosition, matchedGalaxy, useMemo, forEach.
  rewrite forEach_match. by destruct (last (List.filter isMatch data)).
Qed.

(** X16. With an empty search query the scene shows no search marker,
    although every record has [isMatch = true]. With a non-empty query
    (and string names on the surviving records) the marker stands at the
    position of the last surviving record whose lowercased name contains
    the lowercased query, and there is no marker when no surviving
    record matches. *)
Theorem matchMarker_spec (st : FilterState) (thr : Q) (data : list object) :
  (searchQuery st = "" → AppScene.matchMarker st thr data = Ok None)
  ∧ (searchQuery st ≠ "" →
     Forall (λ d, ∃ n, get d "name" = VStr n) (List.filter (keep st) data) →
     AppScene.matchMarker st thr data
     = Ok (position
             <$> last (List.filter
                         (nameMatches (toLowerCase (searchQuery st)))
                         (List.filter (keep st) data))))
  ∧ (searchQuery st ≠ "" →
     Forall (λ d, ∃ n, get d "name" = VStr n) (List.filter (keep st) data) →
     Forall (λ d, nameMatches (toLowerCase (searchQuery st)) d = false)
            (List.filter (keep st) data) →
     AppScene.matchMarker st thr data = Ok None).
Proof.
  assert (Hsome : searchQuery st ≠ "" →
     Forall (λ d, ∃ n, get d "name" = VStr n) (List.filter (keep st) data) →
     AppScene.matchMarker st thr data
     = Ok (position
             <$> last (List.filter
                         (nameMatches (toLowerCase (searchQuery st)))
                         (List.filter (keep st) data)))).
  { intros Hq Hnames. unfold AppScene.matchMarker.
    rewrite processedData_annotated by done. simpl.
    assert (Hactive : searchActive st = true) by by apply searchActive_spec.
    rewrite Hactive, markerPosition_last, filter_isMatch_annotated.
    f_equal. rewrite last_map.
    destruct (last (List.filter _ (List.filter (keep st) data))) as [d|];
      simpl; [|done].
    by rewrite position_annotated. }
  split_and!; [| done |].
  - intros Hq. unfold AppScene.matchMarker.
    destruct (processedData_total st data) as [out ->]; [by left|]. simpl.
    assert (Hactive : searchActive st = false).
    { destruct (searchActive st) eqn:E; [|done].
      by apply searchActive_spec in E. }
    rewrite Hactive. unfold markerPosition, matchedGalaxy, useMemo, forEach.
    by rewrite forEach_no_search.
  - intros Hq Hnames Hnone. rewrite Hsome by done.
    by rewrite (filter_none _ _ Hnone).
Qed.
End MarkerMore.

(** ** The colour mapper *)

Section ColorMore.
Context {ext : Externals}.
Import GalaxyParticles.

Lemma clamp01_id (u : Q) : 0 <= u <= 1 → clamp01 u == u.
Proof.
  intros Hu. unfold clamp01.
  pose proof (Q.max_spec 0 (Qmin 1 u)). pose proof (Q.min_spec 1 u). lra.
Qed.

Lemma Qdiv_zero (a b : Q) : a == 0 → a / b == 0.
Proof. intros Ha. unfold Qdiv. rewrite Ha. ring. Qed.

Lemma Qdiv_same (a b : Q) : ¬ b == 0 → a == b → a / b == 1.
Proof. intros Hb Ha. rewrite Ha. by field. Qed.

Lemma Qdiv_unit (a b : Q) : 0 < b → 0 <= a <= b → 0 <= a / b <= 1.
Proof.
  intros Hb [H0 H1]. split.
  - apply Qle_shift_div_l; [done | lra].
  - apply Qle_shift_div_r; [done | lra].
Qed.

(** X17. The interpolation passes through the control points: at the
    position of each of the six stops the colour mapper returns the
    colour of that stop. *)
Theorem getMagmaColor_at_stops (k : nat) (stop : ColorStop) (ts : Q) :
  Forall (λ stop, THREE.Color_finite (c stop)) colorStops →
  colorStops !! k = Some stop → t stop = Fin ts →
  THREE.Color_equiv (getMagmaColor (Fin ts)) (c stop).
Proof.
  intros Hfin Hk Hts.
  destruct (getMagmaColor_segment ts)
    as (i & s0 & s1 & t0 & t1 & tc & Hi & HSi & Ht0 & Ht1 & Htc & Hbr
        & Hlt & ->).
  rewrite list.Forall_forall in Hfin.
  pose proof (Hfin s0 (list_elem_of_lookup_2 _ _ _ Hi)) as Hf0.
  pose proof (Hfin s1 (list_elem_of_lookup_2 _ _ _ HSi)) as Hf1.
  assert (Hrange : 0 <= ts <= 1).
  { unfold colorStops in Hk.
    destruct k as [|[|[|[|[|[|k]]]]]]; simpl in Hk; try done;
      injection Hk as <-; simpl in Hts; injection Hts as <-; lra. }
  rewrite (clamp01_id ts Hrange) in Htc.
  assert (Hcases : (ts == t0 ∧ stop = s0) ∨ (ts == t1 ∧ stop = s1)).
  { unfold colorStops in Hk, Hi, HSi.
    destruct k as [|[|[|[|[|[|k]]]]]]; simpl in Hk; try done;
      injection Hk as <-; simpl in Hts; injection Hts as <-;
      (destruct i as [|[|[|[|[|i]]]]]; simpl in Hi, HSi; try done;
       injection Hi as <-; injection HSi as <-; simpl in Ht0, Ht1;
       injection Ht0 as <-; injection Ht1 as <-;
       first [ left; split; [reflexivity | reflexivity]
             | right; split; [reflexivity | reflexivity]
             | exfalso; lra ]). }
  destruct Hcases as [[Heq ->]|[Heq ->]].
  - apply lerpColors_0; [done | done |]. apply Qdiv_zero. lra.
  - apply lerpColors_1; [done | done |]. apply Qdiv_same; lra.
Qed.

Lemma lerp_channel_within (lo hi x0 x1 a : Q) :
  lo <= x0 <= hi → lo <= x1 <= hi → 0 <= a <= 1 →
  lo <= x0 + (x1 - x0) * a <= hi.
Proof.
  intros [Hl0 Hh0] [Hl1 Hh1] [Ha0 Ha1].
  assert (H1 : 0 <= (x0 - lo) * (1 - a)) by (apply Qmult_le_0_compat; lra).
  assert (H2 : 0 <= (x1 - lo) * a) by (apply Qmult_le_0_compat; lra).
  assert (H3 : 0 <= (hi - x0) * (1 - a)) by (apply Qmult_le_0_compat; lra).
  assert (H4 : 0 <= (hi - x1) * a) by (apply Qmult_le_0_compat; lra).
  split.
  - assert (E : x0 + (x1 - x0) * a - lo
                == (x0 - lo) * (1 - a) + (x1 - lo) * a) by ring.
    lra.
  - assert (E : hi - (x0 + (x1 - x0) * a)
                == (hi - x0) * (1 - a) + (hi - x1) * a) by ring.
    lra.
Qed.

Lemma lerpColors_within (lo hi : Q) (c0 c1 : THREE.Color) (a : Q) :
  Color_within lo hi c0 → Color_within lo hi c1 → 0 <= a <= 1 →
  Color_within lo hi (THREE.lerpColors c0 c1 (Fin a)).
Proof.
  intros ((r0 & Hr0 & ?) & (g0 & Hg0 & ?) & (b0 & Hb0 & ?))
         ((r1 & Hr1 & ?) & (g1 & Hg1 & ?) & (b1 & Hb1 & ?)) Ha.
  unfold Color_within, channel_within, THREE.lerpColors. simpl.
  rewrite Hr0, Hg0, Hb0, Hr1, Hg1, Hb1. simpl.
  split_and!; eexists; (split; [reflexivity|]);
    by apply lerp_channel_within.
Qed.

(** X18. The colour mapper never leaves the range of the palette: when
    every channel of every palette colour lies between two bounds, so
    does every channel of the colour of every record, whatever its
    [mass_log]. *)
Theorem colorOf_within (lo hi : Q) (d : object) :
  Forall (λ stop, Color_within lo hi (c stop)) colorStops →
  Color_within lo hi (colorOf d).
Proof.
  intros Hpal. rewrite list.Forall_forall in Hpal. unfold colorOf.
  destruct (num_div _ (Fin 5.5)) as [u|].
  - destruct (getMagmaColor_segment u)
      as (i & s0 & s1 & t0 & t1 & tc & Hi & HSi & Ht0 & Ht1 & Htc & Hbr
          & Hlt & ->).
    apply lerpColors_within.
    + apply Hpal. by eapply list_elem_of_lookup_2.
    + apply Hpal. by eapply list_elem_of_lookup_2.
    + apply Qdiv_unit; lra.
  - change (getMagmaColor NaN) with (THREE_Color "#FCFDBF").
    apply (Hpal {| t := Fin 1.0; c := THREE_Color "#FCFDBF" |}).
    unfold colorStops. repeat constructor.
Qed.
End ColorMore.

(** ** Real-valued parts: locate, blinking and shading *)

Module RealFacts.
Import Reals Lra UIOverlay BlinkingMarker Shaders.
Local Open Scope R_scope.

(** X19. The located point lies at the given distance from the origin:
    [x² + y² + z² = dist²] for every right ascension and declination. *)
Theorem handleLocate_radius (ra dec dist : R) :
  let '(x, y, z) := handleLocate ra dec dist in
  x * x + y * y + z * z = dist * dist.
Proof.
  unfold handleLocate.
  pose proof (sin2_cos2 (dec * d2r)) as Hdec.
  pose proof (sin2_cos2 (ra * d2r)) as Hra.
  unfold Rsqr in Hdec, Hra.
  set (cd := cos (dec * d2r)) in *. set (sd := sin (dec * d2r)) in *.
  set (cr := cos (ra * d2r)) in *. set (sr := sin (ra * d2r)) in *.
  replace (dist * cd * cr * (dist * cd * cr) + dist * cd * sr * (dist * cd * sr)
           + dist * sd * (dist * sd))
    with (dist * dist * (cd * cd * (sr * sr + cr * cr) + sd * sd)) by ring.
  rewrite Hra, Rmult_1_r.
  replace (cd * cd + sd * sd) with (sd * sd + cd * cd) by ring.
  rewrite Hdec. ring.
Qed.

(** X20. Angles out of range are accepted and wrap around: adding 360
    degrees to the right ascension gives the same point, and at a
    declination of 90 degrees the point is the pole [(0, 0, dist)]
    whatever the right ascension. *)
Theorem handleLocate_wraps (ra dec dist : R) :
  handleLocate (ra + 360) dec dist = handleLocate ra dec dist
  ∧ handleLocate ra 90 dist = (0, 0, dist).
Proof.
  unfold handleLocate. split.
  - replace ((ra + 360) * d2r) with (ra * d2r + 2 * PI)
      by (unfold d2r; field).
    rewrite cos_plus, sin_plus, cos_2PI, sin_2PI, !Rmult_0_r, !Rmult_1_r.
    by rewrite Rminus_0_r, Rplus_0_r.
  - replace (90 * d2r) with (PI / 2) by (unfold d2r; field).
    rewrite cos_PI2, sin_PI2. f_equal; [f_equal|]; ring.
Qed.


Lemma clamp_unit (x : R) : 0 <= clamp x 0 1 <= 1.
Proof.
  unfold clamp, Rmin, Rmax.
  destruct (Rle_dec x 0); destruct (Rle_dec _ 1); lra.
Qed.

Lemma smoothstep_unit (e0 e1 x : R) : 0 <= smoothstep e0 e1 x <= 1.
Proof.
  unfold smoothstep. pose proof (clamp_unit ((x - e0) / (e1 - e0))) as Hc.
  set (u := clamp _ 0 1) in *.
  assert (H1 : 0 <= u * u * (3 - 2 * u)).
  { apply Rmult_le_pos; [apply Rmult_le_pos|]; lra. }
  assert (H2 : 0 <= (1 - u) * (1 - u) * (1 + 2 * u)).
  { apply Rmult_le_pos; [apply Rmult_le_pos|]; lra. }
  split; [done|].
  replace (u * u * (3 - 2 * u)) with (1 - (1 - u) * (1 - u) * (1 + 2 * u))
    by ring.
  lra.
Qed.

Lemma smoothstep_high (x : R) : 0.2 <= x → smoothstep 0 0.2 x = 1.
Proof.
  intros Hx. unfold smoothstep, clamp.
  assert (Hq : 1 <= (x - 0) / (0.2 - 0)).
  { replace ((x - 0) / (0.2 - 0)) with (x * 5) by (field_simplify; lra). lra. }
  rewrite Rmax_left by lra. rewrite Rmin_right by lra. ring.
Qed.

(** X22. The fragment shader discards exactly the fragments farther than
    0.5 from the centre of the point. The alpha of a drawn fragment is
    positive and at most 1.2, and from the distance 0.2 on the core term
    vanishes and the alpha is the glow term alone, at most 0.8. *)
Theorem fragmentAlpha_bounds (r : R) :
  0 <= r →
  (fragmentAlpha r = None ↔ 0.5 < r)
  ∧ (r <= 0.5 → ∃ alpha, fragmentAlpha r = Some alpha ∧ 0 < alpha <= 1.2)
  ∧ (0.2 <= r <= 0.5 →
     fragmentAlpha r = Some (exp ((- r) * r * 8.0) * 0.8)
     ∧ exp ((- r) * r * 8.0) * 0.8 <= 0.8).
Proof.
  intros Hr. unfold fragmentAlpha.
  assert (Hexp : 0 < exp ((- r) * r * 8.0) <= 1).
  { split; [apply exp_pos|]. rewrite <- exp_0.
    destruct (Req_dec r 0) as [->|Hne].
    - right. f_equal. ring.
    - left. apply exp_increasing. nra. }
  pose proof (smoothstep_unit 0 0.2 r) as Hs.
  split_and!.
  - destruct (Rlt_dec 0.5 r); split; (done || lra).
  - intros Hle. destruct (Rlt_dec 0.5 r); [lra|].
    eexists. split; [reflexivity|]. lra.
  - intros [Hlo Hhi]. destruct (Rlt_dec 0.5 r); [lra|].
    rewrite smoothstep_high by done. split; [f_equal; ring | lra].
Qed.

(** X23. The point size of the vertex shader is positive for a point in
    front of the camera and scales inversely with its depth: a point [k]
    times as deep is drawn [k] times smaller. *)
Theorem gl_PointSize_perspective (size z k : R) :
  0 < size → z < 0 → 0 < k →
  0 < gl_PointSize size z
  ∧ gl_PointSize size (k * z) = gl_PointSize size z / k.
Proof.
  intros Hsize Hz Hk. unfold gl_PointSize. split.
  - apply Rmult_lt_0_compat; [done|].
    apply Rdiv_lt_0_compat; lra.
  - field. split; lra.
Qed.
End RealFacts.

(** ** Further examples on the sample catalogue *)

Section ExamplesMore.
Import dataUtils App GalaxyParticles.
Existing Instance sample_externals.

Lemma sample_log10_finite : log10_finite.
Proof.
  intros q Hq. simpl. unfold sample_log10.
  assert (Hlt : Qltb 0 q = true) by by apply Qltb_lt.
  rewrite Hlt. by eexists.
Qed.

Lemma sample_rows_mass_typed : Forall mass_typed sample_rows.
Proof.
  repeat (apply List.Forall_cons; [left; by eexists|]). apply List.Forall_nil.
Qed.

Lemma sample_rows_distance_typed : Forall distance_typed sample_rows.
Proof.
  repeat (apply List.Forall_cons; [left; by eexists|]). apply List.Forall_nil.
Qed.

Lemma sample_palette_finite :
  Forall (λ stop, THREE.Color_finite (c stop)) colorStops.
Proof.
  repeat (apply List.Forall_cons; [split_and!; eexists; reflexivity|]).
  apply List.Forall_nil.
Qed.

Lemma sample_palette_unit :
  Forall (λ stop, Color_within 0 1 (c stop)) colorStops.
Proof.
  repeat (apply List.Forall_cons;
            [split_and!; eexists; (split; [reflexivity|]);
             split; by vm_compute|]).
  apply List.Forall_nil.
Qed.

Lemma loadData_units_sample :
  loadData sample_rows !! 0%nat = Some rec_andromeda
  ∧ ∃ row, List.filter hasCoords sample_rows !! 0%nat = Some row
    ∧ (∀ q, get row "sg_xx" = VNum (Fin q) →
         get rec_andromeda "x" = VNum (Fin (q / 1000)))
    ∧ (∀ q, get row "sg_yy" = VNum (Fin q) →
         get rec_andromeda "y" = VNum (Fin (q / 1000)))
    ∧ (∀ q, get row "sg_zz" = VNum (Fin q) →
         get rec_andromeda "z" = VNum (Fin (q / 1000)))
    ∧ (∀ q, get row "distance" = VNum (Fin q) →
         ∃ dist, get rec_andromeda "dist_mpc" = VNum (Fin dist)
                 ∧ dist == q / 1000)
    ∧ (get row "distance" = VNull ∨ get row "distance" = VUndefined →
         ∃ dist, get rec_andromeda "dist_mpc" = VNum (Fin dist) ∧ dist == 0).
Proof.
  assert (Hlook : loadData sample_rows !! 0%nat = Some rec_andromeda)
    by (vm_compute; reflexivity).
  split; [done|]. exact (loadData_units sample_rows 0 rec_andromeda Hlook).
Defined.

Lemma normalizeRow_ignores_sample :
  "x" ∈ derived_fields
  ∧ normalizeRow false 0 (<["x" := VStr "left"]> row_andromeda)
    = normalizeRow false 0 row_andromeda.
Proof.
  assert (Hin : "x" ∈ derived_fields) by field_in.
  split; [done|].
  exact (normalizeRow_ignores_derived_columns false 0 row_andromeda "x"
           (VStr "left") Hin).
Defined.

Lemma loadData_then_filter_sample :
  Forall record_typed (loadData sample_rows)
  ∧ ∀ d, d ∈ List.filter (keep sample_state) (loadData sample_rows) ↔
         d ∈ loadData sample_rows ∧ visible sample_state d.
Proof.
  exact (loadData_then_filter sample_rows sample_state sample_log10_finite
           sample_rows_mass_typed sample_rows_distance_typed).
Defined.

Lemma missing_mass_sample :
  0 < minMass sample_state
  ∧ ∃ row, List.filter hasCoords rows_linear !! 1%nat = Some row
    ∧ (get row "mass_stellar" = VNull ∨ get row "mass_stellar" = VUndefined →
       get (normalizeRow true 1
              (catalog_row (VStr "Sculptor") 10 20 30 86 VNull)) "mass_log"
       = VNum (Fin 0)
       ∧ keep sample_state
           (normalizeRow true 1
              (catalog_row (VStr "Sculptor") 10 20 30 86 VNull)) = false).
Proof.
  assert (Hmin : 0 < minMass sample_state) by done.
  split; [done|].
  apply (missing_mass_is_filtered rows_linear sample_state 1); [|done].
  vm_compute. reflexivity.
Defined.

Lemma keep_monotone_sample :
  keep sample_state rec_andromeda = true
  ∧ keep wide_state rec_andromeda = true.
Proof.
  assert (Hkeep : keep sample_state rec_andromeda = true)
    by (vm_compute; reflexivity).
  split; [done|].
  apply (keep_monotone sample_state wide_state rec_andromeda);
    [by vm_compute | by vm_compute | done | done].
Defined.

Lemma local_group_redundant_sample :
  maxDist near_state <= 3
  ∧ keep near_state rec_andromeda = keep near_state_all rec_andromeda.
Proof.
  assert (H3 : maxDist near_state <= 3) by by vm_compute.
  split; [done|].
  by apply (local_group_redundant near_state near_state_all rec_andromeda).
Defined.

Lemma processedData_idempotent_sample :
  processedData sample_state sample_records
  = Ok [<["isMatch" := VBool true]> rec_andromeda;
        <["isMatch" := VBool true]> rec_and_xii;
        <["isMatch" := VBool false]> rec_sculptor]
  ∧ processedData sample_state
      [<["isMatch" := VBool true]> rec_andromeda;
       <["isMatch" := VBool true]> rec_and_xii;
       <["isMatch" := VBool false]> rec_sculptor]
    = Ok [<["isMatch" := VBool true]> rec_andromeda;
          <["isMatch" := VBool true]> rec_and_xii;
          <["isMatch" := VBool false]> rec_sculptor].
Proof.
  assert (Hout : processedData sample_state sample_records
    = Ok [<["isMatch" := VBool true]> rec_andromeda;
          <["isMatch" := VBool true]> rec_and_xii;
          <["isMatch" := VBool false]> rec_sculptor])
    by (vm_compute; reflexivity).
  split; [done|].
  exact (processedData_idempotent sample_state sample_records _ Hout).
Defined.

Lemma processedData_query_case_sample :
  toLowerCase (searchQuery sample_state_upper)
  = toLowerCase (searchQuery sample_state)
  ∧ processedData sample_state_upper sample_records
    = processedData sample_state sample_records.
Proof.
  assert (Hq : toLowerCase (searchQuery sample_state_upper)
               = toLowerCase (searchQuery sample_state))
    by (vm_compute; reflexivity).
  split; [done|].
  by apply (processedData_query_case sample_state sample_state_upper).
Defined.


Lemma baseSize_monotone_sample :
  7 <= 10
  ∧ size_le (baseSize {["mass_log" := VNum (Fin 7)]})
            (baseSize {["mass_log" := VNum (Fin 10)]}).
Proof.
  assert (Hle : 7 <= 10) by by vm_compute.
  split; [done|].
  by apply (baseSize_monotone _ _ 7 10).
Defined.

Lemma getMagmaColor_at_stops_sample :
  THREE.Color_equiv (getMagmaColor (Fin 0.4)) (THREE_Color "#8C2981").
Proof.
  apply (getMagmaColor_at_stops 2
           {| t := Fin 0.4; c := THREE_Color "#8C2981" |} 0.4);
    [exact sample_palette_finite | reflexivity | reflexivity].
Defined.

Lemma colorOf_within_sample :
  Forall (λ stop, Color_within 0 1 (c stop)) colorStops
  ∧ Color_within 0 1 (colorOf rec_andromeda).
Proof.
  split; [exact sample_palette_unit|].
  exact (colorOf_within 0 1 rec_andromeda sample_palette_unit).
Defined.
End ExamplesMore.

Module RealExamples.
Import Reals Lra Shaders.
Local Open Scope R_scope.

Lemma fragmentAlpha_sample :
  0 <= 0.3
  ∧ (fragmentAlpha 0.3 = None ↔ 0.5 < 0.3)
  ∧ (0.3 <= 0.5 → ∃ alpha, fragmentAlpha 0.3 = Some alpha ∧ 0 < alpha <= 1.2)
  ∧ (0.2 <= 0.3 <= 0.5 →
     fragmentAlpha 0.3 = Some (exp (- (0.3) * 0.3 * 8.0) * 0.8)
     ∧ exp (- (0.3) * 0.3 * 8.0) * 0.8 <= 0.8).
Proof.
  assert (Hr : 0 <= 0.3) by lra.
  split; [done|]. exact (RealFacts.fragmentAlpha_bounds 0.3 Hr).
Defined.

Lemma gl_PointSize_sample :
  0 < gl_PointSize 4 (-10)
  ∧ gl_PointSize 4 (2 * -10) = gl_PointSize 4 (-10) / 2.
Proof.
  apply (RealFacts.gl_PointSize_perspective 4 (-10) 2); lra.
Defined.
End RealExamples.
